(** * Routing supervisor and agent graph of the LinkedIn profile optimizer

    A shallow embedding of [backend/agents.py], [backend/graph.py],
    [backend/utils.py] and of the profile load and the chat of [app.py],
    with the properties of the router, of the dispatcher, of the scraper
    and of the session proved over it.

    Python objects are modelled as follows.
    - [BaseMessage] subclasses are the constructors of an inductive type and
      [isinstance] is a match on the constructor.
    - The [AgentState] typed dict is a record; a partial dict returned by a
      node is an [Update], a record of optional fields.
    - Exceptions and mutation are threaded through the monad [M]: a
      computation takes the [World] and gives back a value or an
      [Exception], together with the world it leaves behind.  What was
      mutated before an exception was raised stays mutated.
    - The chat model is a [ChatModel]: what it replies may depend on the
      prompt and on the calls it has already served.
    - [World] also records, for the statements below, the calls the chat
      model has served and the graph nodes that were invoked.
    - The pattern of [re.match] is a [regex], matched by derivatives; the
      network is an [AsyncClient], which answers a request with a response
      or with a transport failure. *)

From Stdlib Require Import Ascii.
From stdpp Require Import base strings gmap list pretty.

Open Scope string_scope.
Open Scope list_scope.

(** ** langchain_core.messages *)

Inductive BaseMessage : Type :=
| HumanMessage (content : string)
| AIMessage (content : string)
| SystemMessage (content : string).

Definition content (m : BaseMessage) : string :=
  match m with
  | HumanMessage c | AIMessage c | SystemMessage c => c
  end.

Definition is_HumanMessage (m : BaseMessage) : bool :=
  match m with HumanMessage _ => true | _ => false end.

Definition is_AIMessage (m : BaseMessage) : bool :=
  match m with AIMessage _ => true | _ => false end.

(** ** Exceptions *)

Inductive Exception : Type :=
| KeyError (key : string)
| IndexError
| ValidationError (field : string) (input : option string)
| LLMError (cause : string)
| GraphRecursionError.

(** ** agents.py: the state and the router's output schema *)

Definition NEXT_LITERAL : list string :=
  ["Profile Analyzer"; "Job Fit Analyzer"; "Content Enhancer";
   "Career Counselor"; "__end__"].

Record AgentState : Type := {
  messages : list BaseMessage;
  profile_data : string;
  next : option string   (* absent until the supervisor has written it *)
}.

(** A partial [AgentState] dict, as a node returns it and as
    [graph.stream] yields it. *)
Record Update : Type := {
  upd_messages : option (list BaseMessage);
  upd_profile_data : option string;
  upd_next : option string
}.

Record SupervisorRouterFormatter : Type := {
  next_agent : string
}.

(** Pydantic validation of the arguments of the tool call against
    [next_agent: Literal[...] = Field(...)]: the field is required and its
    value must be one of the five literals. *)
Definition model_validate (args : gmap string string)
  : Exception + SupervisorRouterFormatter :=
  match args !! "next_agent" with
  | None => inl (ValidationError "next_agent" None)
  | Some v =>
      if bool_decide (v ∈ NEXT_LITERAL)
      then inr {| next_agent := v |}
      else inl (ValidationError "next_agent" (Some v))
  end.

(** ** The chat model and the world *)

Inductive Call : Type :=
| Generate (prompt : string)
| GenerateStructured (prompt : string).

Inductive Reply (A : Type) : Type :=
| Ok (a : A)
| Fail (cause : string).
Arguments Ok {A} a.
Arguments Fail {A} cause.

(** [chat_generate calls prompt] is the text of the reply to [prompt] when
    [calls] have been served before; [chat_structured] is the argument
    object of the tool call the model emits when the router's schema is
    bound.  [Fail] is an exception raised by the client (network,
    authentication, rate limit). *)
Record ChatModel : Type := {
  chat_generate : list Call → string → Reply string;
  chat_structured : list Call → string → Reply (gmap string string)
}.

(** st.session_state *)
Record SessionState : Type := {
  session_id : string;
  ss_messages : list BaseMessage;
  profile_summary : string
}.

Record World : Type := {
  llm_calls : list Call;                 (* calls served, oldest first *)
  node_trace : list string;              (* graph nodes invoked, oldest first *)
  checkpoints : gmap string AgentState;  (* checkpointer, by thread_id *)
  session : SessionState
}.

Definition log_call (c : Call) (w : World) : World :=
  {| llm_calls := llm_calls w ++ [c]; node_trace := node_trace w;
     checkpoints := checkpoints w; session := session w |}.

Definition log_node (name : string) (w : World) : World :=
  {| llm_calls := llm_calls w; node_trace := node_trace w ++ [name];
     checkpoints := checkpoints w; session := session w |}.

Definition put_checkpoint (thread_id : string) (st : AgentState) (w : World)
  : World :=
  {| llm_calls := llm_calls w; node_trace := node_trace w;
     checkpoints := <[thread_id := st]> (checkpoints w);
     session := session w |}.

Definition session_append (m : BaseMessage) (w : World) : World :=
  {| llm_calls := llm_calls w; node_trace := node_trace w;
     checkpoints := checkpoints w;
     session := {| session_id := session_id (session w);
                   ss_messages := ss_messages (session w) ++ [m];
                   profile_summary := profile_summary (session w) |} |}.

(** ** The monad of effectful code *)

Definition M (A : Type) : Type := World → (Exception + A) * World.

Definition ret {A} (a : A) : M A := λ w, (inr a, w).
Definition raise {A} (e : Exception) : M A := λ w, (inl e, w).
Definition bind {A B} (m : M A) (k : A → M B) : M B :=
  λ w, match m w with
       | (inr a, w') => k a w'
       | (inl e, w') => (inl e, w')
       end.
Definition lift {A} (r : Exception + A) : M A := λ w, (r, w).
Definition get_world : M World := λ w, (inr w, w).
Definition modify (f : World → World) : M unit := λ w, (inr tt, f w).

Notation "'let*' x := m 'in' k" := (bind m (λ x, k))
  (at level 10, x name, m at level 200, k at level 200).
Notation "m >> k" := (bind m (λ _, k))
  (at level 61, left associativity).

Fixpoint mapM {A B} (f : A → M B) (l : list A) : M (list B) :=
  match l with
  | [] => ret []
  | x :: l' => let* y := f x in let* ys := mapM f l' in ret (y :: ys)
  end.

(** A loop over [l] whose body may raise but has no other effect. *)
Fixpoint fold_body {A B} (f : A → B → Exception + A) (acc : A) (l : list B)
  : Exception + A :=
  match l with
  | [] => inr acc
  | x :: l' =>
      match f acc x with
      | inr acc' => fold_body f acc' l'
      | inl e => inl e
      end
  end.

(** ** langchain_core.prompts *)

Inductive Segment : Type :=
| Lit (text : string)
| Var (name : string).

(** A template made of one system message. *)
Definition ChatPromptTemplate : Type := list Segment.

Fixpoint format_prompt (t : ChatPromptTemplate) (vars : gmap string string)
  : Exception + string :=
  match t with
  | [] => inr ""
  | Lit s :: t' =>
      match format_prompt t' vars with
      | inr rest => inr (s +:+ rest)
      | inl e => inl e
      end
  | Var x :: t' =>
      match vars !! x with
      | None => inl (KeyError x)
      | Some v =>
          match format_prompt t' vars with
          | inr rest => inr (v +:+ rest)
          | inl e => inl e
          end
      end
  end.

(** [llm.invoke(prompt_value)] *)
Definition llm_invoke (llm : ChatModel) (prompt : string) : M BaseMessage :=
  λ w, match chat_generate llm (llm_calls w) prompt with
       | Ok text => (inr (AIMessage text), log_call (Generate prompt) w)
       | Fail cause => (inl (LLMError cause), log_call (Generate prompt) w)
       end.

(** [llm.with_structured_output(SupervisorRouterFormatter).invoke(prompt_value)] *)
Definition with_structured_output (llm : ChatModel) (prompt : string)
  : M SupervisorRouterFormatter :=
  λ w, match chat_structured llm (llm_calls w) prompt with
       | Ok args => (model_validate args, log_call (GenerateStructured prompt) w)
       | Fail cause =>
           (inl (LLMError cause), log_call (GenerateStructured prompt) w)
       end.

(** [(prompt | runnable).invoke(vars)] *)
Definition chain_invoke {A} (prompt : ChatPromptTemplate)
    (runnable : string → M A) (vars : gmap string string) : M A :=
  let* text := lift (format_prompt prompt vars) in runnable text.

(** ** agents.py *)

(** The loop of [get_current_user_message] over the reversed list. *)
Fixpoint first_human_content (ms : list BaseMessage) : string :=
  match ms with
  | [] => ""
  | message :: ms' =>
      if is_HumanMessage message then content message
      else first_human_content ms'
  end.

Definition get_current_user_message (messages : list BaseMessage) : string :=
  first_human_content (reverse messages).

Definition supervisor_prompt : ChatPromptTemplate :=
  [ Lit "You are an intelligent routing supervisor for a professional LinkedIn optimization system. Your role is to analyze user requests and direct them to the most appropriate specialist agent.

Available agents and their capabilities:
- Profile Analyzer: Reviews LinkedIn profiles for strengths, weaknesses, and improvement opportunities
- Job Fit Analyzer: Compares profiles against specific job roles and calculates compatibility scores
- Content Enhancer: Rewrites and optimizes profile sections for maximum professional impact
- Career Counselor: Identifies skill gaps and recommends learning resources for career advancement

Decision criteria:
- If user wants profile feedback or analysis → Profile Analyzer
- If user mentions a specific job title or role → Job Fit Analyzer
- If user wants to improve/rewrite profile content → Content Enhancer
- If user asks about career growth or skill development → Career Counselor
- If conversation is complete or user says goodbye → __end__

Always use the SupervisorRouterFormatter tool to provide your routing decision.

Current user request: ";
    Var "current_request" ].

(** [SupervisorAgent(llm)(state)] *)
Definition SupervisorAgent (llm : ChatModel) (state : AgentState) : M Update :=
  let current_request := get_current_user_message (messages state) in
  let* response :=
    chain_invoke supervisor_prompt (with_structured_output llm)
      {[ "current_request" := current_request ]} in
  ret {| upd_messages := None; upd_profile_data := None;
         upd_next := Some (next_agent response) |}.

Definition profile_analyzer_prompt : ChatPromptTemplate :=
  [ Lit "You are a senior LinkedIn profile optimization expert with 10+ years of experience helping professionals enhance their online presence. Your expertise spans across all industries and career levels.

Your analysis framework:
1. PROFILE OVERVIEW: Assess overall profile completeness and professional presentation
2. HEADLINE & SUMMARY: Evaluate clarity, impact, and keyword optimization
3. EXPERIENCE SECTION: Review job descriptions for achievement focus and quantifiable results
4. SKILLS & ENDORSEMENTS: Analyze relevance and strategic positioning
5. RECOMMENDATIONS: Assess quality and credibility indicators

For each section, provide:
- Specific strengths to leverage
- Critical weaknesses to address
- Actionable improvement recommendations
- Industry best practices and examples

Current profile data to analyze:
";
    Var "profile_data";
    Lit "

User request: ";
    Var "current_request";
    Lit "

Deliver your analysis in a structured, professional manner with clear priorities for improvement." ].

Definition job_fit_analyzer_prompt : ChatPromptTemplate :=
  [ Lit "You are a specialized Job Compatibility Analyst with expertise in talent acquisition and career matching. Your task is to provide a comprehensive job-profile compatibility assessment.

Your process:
1. **GENERATE JOB DESCRIPTION**: Based on your extensive knowledge of the job market, first generate a detailed, industry-standard job description for the role specified in the user's request.
2. **PROFILE MAPPING**: Compare the user's profile summary against the job description you just generated.
3. **SCORING**: Calculate a compatibility percentage based on how well the user's profile matches the generated requirements.

Deliverable format:
- The industry-standard job description you generated.
- Overall compatibility score (0-100%).
- Detailed breakdown of strong alignments and critical gaps.
- Specific recommendations for improvement.

User's profile summary:
";
    Var "profile_data";
    Lit "

User request: ";
    Var "current_request" ].

Definition content_enhancer_prompt : ChatPromptTemplate :=
  [ Lit "You are an expert professional copywriter specializing in LinkedIn profile optimization. Your writing transforms ordinary profiles into compelling professional narratives that attract recruiters and opportunities.

Your writing principles:
- IMPACT-FIRST: Lead with achievements and quantifiable results
- KEYWORD OPTIMIZATION: Integrate industry-relevant terms naturally
- ACTIVE VOICE: Use strong, confident language that demonstrates capability
- STORYTELLING: Create coherent narratives that show career progression
- ATS-FRIENDLY: Ensure content passes applicant tracking systems

Content enhancement guidelines:
- Headlines: Create compelling value propositions (120 characters max)
- Summaries: Write 3-paragraph narratives with hook, expertise, and call-to-action
- Experience: Focus on achievements over responsibilities, use metrics when possible
- Skills: Prioritize relevant, searchable keywords

Quality standards:
- Professional yet personable tone
- Error-free grammar and spelling
- Industry-appropriate language
- Authentic voice that reflects the individual

Original profile data for context:
";
    Var "profile_data";
    Lit "

User request: ";
    Var "current_request";
    Lit "

Provide both the enhanced content and brief explanation of key improvements made." ].

Definition career_counselor_prompt : ChatPromptTemplate :=
  [ Lit "You are a senior career development consultant. Your mission is to identify skill gaps and create actionable development plans based on the user's profile summary and career goals.

Your counseling framework:
1. **GAP IDENTIFICATION**: Compare the user's current skills against the requirements for their desired career path.
2. **RESOURCE SUGGESTION**: Based on your internal knowledge, suggest **types** of learning resources. You do not need to provide specific web links.

For each identified skill gap, provide:
- The specific skill and why it's important.
- **Examples of reputable learning platforms** (e.g., 'Coursera, LinkedIn Learning, Udemy') where they could find courses.
- **Types of certifications to consider** (e.g., 'AWS Certified Solutions Architect', 'PMP for project management').
- Suggestions for practical application (e.g., 'Contribute to an open-source project', 'Start a personal project').

User's profile summary:
";
    Var "profile_data";
    Lit "

User request: ";
    Var "current_request" ].

(** The four [agent_wrapper] closures have the same body and differ in the
    prompt they close over. *)
Definition agent_wrapper (prompt : ChatPromptTemplate) (llm : ChatModel)
    (state : AgentState) : M Update :=
  let current_request := get_current_user_message (messages state) in
  let* response :=
    chain_invoke prompt (llm_invoke llm)
      {[ "profile_data" := profile_data state;
         "current_request" := current_request ]} in
  ret {| upd_messages := Some [response]; upd_profile_data := None;
         upd_next := None |}.

Definition create_profile_analyzer (llm : ChatModel) : AgentState → M Update :=
  agent_wrapper profile_analyzer_prompt llm.

Definition create_job_fit_analyzer (llm : ChatModel) : AgentState → M Update :=
  agent_wrapper job_fit_analyzer_prompt llm.

Definition create_content_enhancer (llm : ChatModel) : AgentState → M Update :=
  agent_wrapper content_enhancer_prompt llm.

Definition create_career_counselor (llm : ChatModel) : AgentState → M Update :=
  agent_wrapper career_counselor_prompt llm.

(** ** langgraph.graph: a state graph and its execution

    What [build_graph] and [graph.stream] use of the library.
    - A graph is its nodes, its edges and its conditional edges; [START]
      and [END] are the names ["__start__"] and ["__end__"].
    - Every key of [AgentState] is declared without a reducer, so each one
      is a last-value channel: a key present in an update replaces the
      stored value ([apply_update]).
    - A run proceeds by super-steps from the targets of [START]; a node
      scheduled for a step runs on the state the previous step left, and
      the run is over when nothing but [END] is scheduled.  A run that
      still has nodes to run after [recursion_limit] steps raises.
    - A conditional edge looks the key computed by its [path] up in its
      [path_map]; there is no default, a key that is not there raises.
    - With a checkpointer the state is saved per thread after every step,
      and [stream] yields, node by node, the update each node returned. *)

Definition START : string := "__start__".
Definition END : string := "__end__".

Abbreviation Node := (AgentState → M Update).

Record Branch : Type := {
  path : AgentState → Exception + string;
  path_map : gmap string string
}.

Record StateGraph : Type := {
  nodes : gmap string Node;
  branches : gmap string Branch;
  edges : list (string * string)
}.

Definition empty_graph : StateGraph :=
  {| nodes := ∅; branches := ∅; edges := [] |}.

Definition add_node (name : string) (action : Node) (g : StateGraph)
  : StateGraph :=
  {| nodes := <[name := action]> (nodes g); branches := branches g;
     edges := edges g |}.

Definition add_edge (start_key end_key : string) (g : StateGraph)
  : StateGraph :=
  {| nodes := nodes g; branches := branches g;
     edges := edges g ++ [(start_key, end_key)] |}.

Definition set_entry_point (key : string) (g : StateGraph) : StateGraph :=
  add_edge START key g.

Definition add_conditional_edges (source : string)
    (path : AgentState → Exception + string) (path_map : gmap string string)
    (g : StateGraph) : StateGraph :=
  {| nodes := nodes g;
     branches := <[source := {| path := path; path_map := path_map |}]> (branches g);
     edges := edges g |}.

Definition apply_update (st : AgentState) (u : Update) : AgentState :=
  {| messages := default (messages st) (upd_messages u);
     profile_data := default (profile_data st) (upd_profile_data u);
     next := match upd_next u with Some n => Some n | None => next st end |}.

(** The destination a conditional edge selects: the key computed by [path]
    is looked up in [path_map]; a key that is not there is an error. *)
Definition branch_target (b : Branch) (st : AgentState) : Exception + string :=
  match path b st with
  | inl e => inl e
  | inr key =>
      match path_map b !! key with
      | Some destination => inr destination
      | None => inl (KeyError key)
      end
  end.

Definition static_targets (g : StateGraph) (name : string) : list string :=
  (filter (λ e, e.1 = name) (edges g)).*2.

Definition successors (g : StateGraph) (st : AgentState) (name : string)
  : Exception + list string :=
  match branches g !! name with
  | None => inr (static_targets g name)
  | Some b =>
      match branch_target b st with
      | inl e => inl e
      | inr destination => inr (static_targets g name ++ [destination])
      end
  end.

Fixpoint all_successors (g : StateGraph) (st : AgentState)
    (names : list string) : Exception + list string :=
  match names with
  | [] => inr []
  | name :: names' =>
      match successors g st name with
      | inl e => inl e
      | inr ds =>
          match all_successors g st names' with
          | inl e => inl e
          | inr rest => inr (ds ++ rest)
          end
      end
  end.

Definition run_task (g : StateGraph) (st : AgentState) (name : string)
  : M (string * Update) :=
  match nodes g !! name with
  | None => raise (KeyError name)
  | Some action =>
      modify (log_node name) >>
      let* update := action st in
      ret (name, update)
  end.

(** One iteration per super-step: the scheduled nodes run on the state of
    the previous step, their updates are written, the outgoing edges are
    followed, the state is checkpointed and the updates are handed to the
    consumer of the stream ([body]), one chunk per node.  The consumer is
    a loop body that updates its local variables ([acc]) and may raise; it
    does not touch the world. *)
Fixpoint pregel_loop {A} (fuel : nat) (g : StateGraph) (thread_id : string)
    (tasks : list string) (st : AgentState)
    (body : A → string * Update → Exception + A) (acc : A) : M A :=
  match filter (λ name, name ≠ END) tasks with
  | [] => ret acc
  | active =>
      match fuel with
      | O => raise GraphRecursionError
      | S fuel' =>
          let* writes := mapM (run_task g st) active in
          let st' := foldl apply_update st (writes.*2) in
          let* tasks' := lift (all_successors g st' active) in
          modify (put_checkpoint thread_id st') >>
          let* acc' := lift (fold_body body acc writes) in
          pregel_loop fuel' g thread_id tasks' st' body acc'
      end
  end.

Definition recursion_limit : nat := 25.

(** The input dict of [graph.stream]; both call sites pass these two keys. *)
Record GraphInput : Type := {
  in_messages : list BaseMessage;
  in_profile_data : string
}.

(** [for chunk in graph.stream(input, config): for item in chunk.items(): body]
    with [config = {"configurable": {"thread_id": thread_id}}].  The input
    is written over the state checkpointed for the thread, whose [next]
    key it does not mention. *)
Definition stream {A} (g : StateGraph) (input : GraphInput)
    (thread_id : string) (body : A → string * Update → Exception + A)
    (acc : A) : M A :=
  let* w := get_world in
  let st0 := {| messages := in_messages input;
                profile_data := in_profile_data input;
                next := checkpoints w !! thread_id ≫= next |} in
  modify (put_checkpoint thread_id st0) >>
  pregel_loop recursion_limit g thread_id (static_targets g START) st0 body acc.

(** ** graph.py *)

Definition build_graph (llm : ChatModel) : StateGraph :=
  let profile_analyzer_runnable := create_profile_analyzer llm in
  let job_fit_analyzer_runnable := create_job_fit_analyzer llm in
  let content_enhancer_runnable := create_content_enhancer llm in
  let career_counselor_runnable := create_career_counselor llm in
  let supervisor := SupervisorAgent llm in
  let workflow := empty_graph in
  let workflow := add_node "supervisor" supervisor workflow in
  let workflow := add_node "Profile Analyzer" profile_analyzer_runnable workflow in
  let workflow := add_node "Job Fit Analyzer" job_fit_analyzer_runnable workflow in
  let workflow := add_node "Content Enhancer" content_enhancer_runnable workflow in
  let workflow := add_node "Career Counselor" career_counselor_runnable workflow in
  let workflow := set_entry_point "supervisor" workflow in
  let workflow :=
    add_conditional_edges "supervisor"
      (λ state, match next state with
                | Some key => inr key
                | None => inl (KeyError "next")
                end)
      {[ "Profile Analyzer" := "Profile Analyzer";
         "Job Fit Analyzer" := "Job Fit Analyzer";
         "Content Enhancer" := "Content Enhancer";
         "Career Counselor" := "Career Counselor";
         "__end__" := END ]}
      workflow in
  let workflow := add_edge "Profile Analyzer" END workflow in
  let workflow := add_edge "Content Enhancer" END workflow in
  let workflow := add_edge "Job Fit Analyzer" END workflow in
  let workflow := add_edge "Career Counselor" END workflow in
  workflow.

(** ** app.py: the chat turn *)

(** The body of the loop over the items of a chunk; the accumulator is
    [final_ai_response].  What it writes to the page is not modelled. *)
Definition on_chunk (final_ai_response : string) (item : string * Update)
  : Exception + string :=
  let '(agent_name, state) := item in
  if bool_decide (agent_name ≠ "supervisor") then
    match upd_messages state with
    | None => inl (KeyError "messages")
    | Some ms =>
        match last ms with
        | None => inl IndexError
        | Some m =>
            if is_AIMessage m then
              let latest_content := content m in
              if bool_decide (latest_content ≠ "") then inr latest_content
              else inr final_ai_response
            else inr final_ai_response
        end
    end
  else inr final_ai_response.

(** [if prompt := st.chat_input(...): ...] *)
Definition handle_chat_input (g : StateGraph) (prompt : string) : M unit :=
  if bool_decide (prompt ≠ "") then
    modify (session_append (HumanMessage prompt)) >>
    let* w := get_world in
    let* final_ai_response :=
      stream g {| in_messages := ss_messages (session w);
                  in_profile_data := profile_summary (session w) |}
        (session_id (session w)) on_chunk "" in
    if bool_decide (final_ai_response ≠ "")
    then modify (session_append (AIMessage final_ai_response))
    else ret tt
  else ret tt.

(** Python's [a in b] on strings. *)
Fixpoint is_substring (a b : string) : bool :=
  if String.prefix a b then true
  else match b with
       | EmptyString => false
       | String _ b' => is_substring a b'
       end.

(** The loop body of the initial analysis: it also skips a content that
    already occurs in [final_ai_response]. *)
Definition on_initial_chunk (final_ai_response : string)
    (item : string * Update) : Exception + string :=
  let '(agent_name, state) := item in
  if bool_decide (agent_name ≠ "supervisor") then
    match upd_messages state with
    | None => inl (KeyError "messages")
    | Some ms =>
        match last ms with
        | None => inl IndexError
        | Some m =>
            if is_AIMessage m then
              let latest_content := content m in
              if bool_decide (latest_content ≠ "") &&
                 negb (is_substring latest_content final_ai_response)
              then inr latest_content
              else inr final_ai_response
            else inr final_ai_response
        end
    end
  else inr final_ai_response.

Definition initial_prompt : BaseMessage :=
  HumanMessage "Analyze my profile by using the Profile Analyzer tool.".

(** [if not st.session_state.messages: ...], the turn the app starts by
    itself when the chat is empty. *)
Definition initial_analysis (g : StateGraph) : M unit :=
  let* w := get_world in
  if bool_decide (ss_messages (session w) = []) then
    modify (session_append initial_prompt) >>
    let* final_ai_response :=
      stream g {| in_messages := [initial_prompt];
                  in_profile_data := profile_summary (session w) |}
        (session_id (session w)) on_initial_chunk "" in
    if bool_decide (final_ai_response ≠ "")
    then modify (session_append (AIMessage final_ai_response))
    else ret tt
  else ret tt.

(** ** re *)

(** The patterns of the source are built from literals, character ranges,
    sequence, alternative and repetition.  Whether a pattern has a match
    does not depend on the order in which [re] tries the alternatives, so
    matching is membership in the language of the pattern, decided here by
    derivatives. *)
Inductive regex : Type :=
| Never
| Eps
| Chr (c : ascii)
| Range (lo hi : ascii)
| Seq (r1 r2 : regex)
| Alt (r1 r2 : regex)
| Star (r : regex).

(** [r?], [r+] and a literal string. *)
Definition Opt (r : regex) : regex := Alt r Eps.
Definition Plus (r : regex) : regex := Seq r (Star r).

Fixpoint Str (s : string) : regex :=
  match s with
  | EmptyString => Eps
  | String c s' => Seq (Chr c) (Str s')
  end.

Definition in_range (lo hi c : ascii) : bool :=
  (nat_of_ascii lo <=? nat_of_ascii c)%nat &&
  (nat_of_ascii c <=? nat_of_ascii hi)%nat.

Fixpoint nullable (r : regex) : bool :=
  match r with
  | Never | Chr _ | Range _ _ => false
  | Eps | Star _ => true
  | Seq r1 r2 => nullable r1 && nullable r2
  | Alt r1 r2 => nullable r1 || nullable r2
  end.

Fixpoint derive (c : ascii) (r : regex) : regex :=
  match r with
  | Never | Eps => Never
  | Chr c' => if bool_decide (c = c') then Eps else Never
  | Range lo hi => if in_range lo hi c then Eps else Never
  | Seq r1 r2 =>
      if nullable r1 then Alt (Seq (derive c r1) r2) (derive c r2)
      else Seq (derive c r1) r2
  | Alt r1 r2 => Alt (derive c r1) (derive c r2)
  | Star r' => Seq (derive c r') (Star r')
  end.

Fixpoint accepts (r : regex) (s : string) : bool :=
  match s with
  | EmptyString => nullable r
  | String c s' => accepts (derive c r) s'
  end.

Definition newline : ascii := "010"%char.

(** [re.match("^r$", s) is not None]: without [re.MULTILINE], [^] is the
    start of the string and [$] is its end or the place before a line feed
    that ends it. *)
Definition re_match_line (r : regex) (s : string) : bool :=
  accepts (Seq r (Opt (Chr newline))) s.

(** ** httpx and json *)

(** What [response.json()] can return. *)
Unset Elimination Schemes.
Inductive JSON : Type :=
| JNull
| JBool (b : bool)
| JNumber (n : Z)
| JString (s : string)
| JList (items : list JSON)
| JObject (members : list (string * JSON)).
Set Elimination Schemes.

(** The arguments of [client.post(url, headers=..., json=...)] and the
    timeout of the client, in seconds. *)
Record Request : Type := {
  req_url : string;
  req_headers : gmap string string;
  req_json : JSON;
  req_timeout : Z
}.

(** [res_json] is the value [response.json()] decodes from the body, [None]
    when the body is not JSON. *)
Record Response : Type := {
  status_code : nat;
  text : string;
  res_json : option JSON
}.

(** A request either fails in transport with an [httpx.RequestError]
    (connection, timeout) whose [str] is [message], or gets a response. *)
Inductive PostResult : Type :=
| RequestError (message : string)
| Received (response : Response).

(** What the network answers to a request after the requests [sent]. *)
Definition AsyncClient : Type := list Request → Request → PostResult.

(** [response.is_success]: [raise_for_status] raises for every other code. *)
Definition is_success (response : Response) : bool :=
  (200 <=? status_code response)%nat && (status_code response <=? 299)%nat.

(** The exceptions of [utils.py]; [json.JSONDecodeError] is what
    [response.json()] raises. *)
Inductive UtilsError : Type :=
| ValueError (message : string)
| RuntimeError (message : string)
| JSONDecodeError.

(** ** utils.py *)

(** [[a-zA-Z0-9-]] *)
Definition SLUG_CHAR : regex :=
  Alt (Range "a" "z") (Alt (Range "A" "Z") (Alt (Range "0" "9") (Chr "-"))).

(** [https?://(www\.)?linkedin\.com/in/[a-zA-Z0-9-]+/?] *)
Definition LINKEDIN_URL : regex :=
  Seq (Str "http") (Seq (Opt (Chr "s")) (Seq (Str "://")
    (Seq (Opt (Str "www.")) (Seq (Str "linkedin.com/in/")
      (Seq (Plus SLUG_CHAR) (Opt (Chr "/"))))))).

(** The test of the first [if] of [scrape_linkedin_profile]. *)
Definition valid_linkedin_url (linkedin_url : string) : bool :=
  re_match_line LINKEDIN_URL linkedin_url.

Definition APIFY_SCRAPER_ACTOR : string := "dev_fusion~linkedin-profile-scraper".

Definition APIFY_API_URL : string :=
  "https://api.apify.com/v2/acts/" +:+ APIFY_SCRAPER_ACTOR +:+
  "/run-sync-get-dataset-items".

(** [not APIFY_API_TOKEN] on the value of [os.getenv]. *)
Definition token_missing (APIFY_API_TOKEN : option string) : bool :=
  match APIFY_API_TOKEN with
  | None => true
  | Some token => bool_decide (token = "")
  end.

(** The state threaded through is the list of the requests sent, oldest
    first. *)
Definition scrape_linkedin_profile (APIFY_API_TOKEN : option string)
    (client : AsyncClient) (linkedin_url : string) (sent : list Request)
  : (UtilsError + JSON) * list Request :=
  if negb (valid_linkedin_url linkedin_url) then
    (inl (ValueError "Invalid LinkedIn profile URL format"), sent)
  else if token_missing APIFY_API_TOKEN then
    (inl (RuntimeError "APIFY_API_TOKEN environment variable not set."), sent)
  else
    let headers : gmap string string :=
      {[ "Content-Type" := "application/json";
         "Accept" := "application/json";
         "Authorization" := "Bearer " +:+ default "" APIFY_API_TOKEN ]} in
    let payload :=
      JObject [("profileUrls", JList [JString linkedin_url]);
               ("maxRetries", JNumber 3);
               ("timeoutSecs", JNumber 90)] in
    let request :=
      {| req_url := APIFY_API_URL; req_headers := headers;
         req_json := payload; req_timeout := 120 |} in
    (match client sent request with
     | Received response =>
         if is_success response then
           match res_json response with
           | None => inl JSONDecodeError
           | Some data =>
               match data with
               | JList (profile :: _) => inr profile
               | _ => inl (ValueError "Unexpected response format from Apify API")
               end
           end
         else
           inl (RuntimeError ("Apify API error: " +:+
                              pretty (status_code response) +:+ " " +:+
                              text response))
     | RequestError message =>
         inl (RuntimeError ("Network error: " +:+ message))
     end, sent ++ [request]).

Definition summary_prompt : ChatPromptTemplate :=
  [ Lit "You are an expert LinkedIn Profile Summarizer with extensive experience in talent assessment and professional profile analysis. Your role is to create comprehensive, structured summaries that capture the essence of a professional's background, skills, and career trajectory.

PROFILE SUMMARIZATION FRAMEWORK:

1. PROFESSIONAL IDENTITY
   - Extract: fullName, headline, jobTitle
   - Create a compelling professional identity statement
   - Include current role and key value proposition

2. CONTACT & LOCATION
   - Summarize: addressWithCountry, email, mobileNumber, linkedinUrl
   - Present professional contact information clearly
   - Note location and availability for remote/relocation

3. CAREER OVERVIEW
   - Analyze: experiences, currentJobDuration, currentJobDurationInYrs
   - Summarize career progression and key roles
   - Highlight leadership positions and career growth
   - Calculate total experience and current role tenure

4. CURRENT COMPANY CONTEXT
   - Extract: companyName, companyIndustry, companySize, companyFoundedIn
   - Provide context about current employer
   - Include industry, company scale, and market position

5. EDUCATIONAL BACKGROUND
   - Summarize: educations
   - List degrees, institutions, and relevant academic achievements
   - Include any specialized training or coursework

6. CORE COMPETENCIES
   - Analyze: skills, topSkillsByEndorsements
   - Categorize skills by type (technical, leadership, domain expertise)
   - Prioritize most endorsed and relevant skills
   - Include skill strength indicators

7. CREDENTIALS & CERTIFICATIONS
   - Extract: licenseAndCertificates, courses, testScores
   - List professional certifications and their relevance
   - Include completion dates and issuing organizations

8. ACHIEVEMENTS & RECOGNITION
   - Compile: honorsAndAwards, highlights, recommendations
   - Summarize notable achievements and recognition
   - Include peer recommendations and endorsements

9. ADDITIONAL ACTIVITIES
   - Review: projects, publications, patents, volunteerAndAwards
   - Highlight relevant side projects and contributions
   - Include volunteer work and community involvement

10. NETWORK & INFLUENCE
    - Analyze: connections, followers, openConnection
    - Assess professional network size and engagement
    - Note thought leadership indicators

SUMMARY OUTPUT STRUCTURE:

**EXECUTIVE SUMMARY** (2-3 sentences)
- Professional identity and current role
- Key value proposition and expertise areas
- Career level and industry focus

**PROFESSIONAL BACKGROUND**
- Career progression summary
- Current role and company context
- Total experience and specialization areas

**KEY STRENGTHS**
- Top 5-7 core competencies
- Technical and soft skills highlights
- Industry-specific expertise

**CREDENTIALS**
- Educational background
- Professional certifications
- Notable achievements and awards

**PROFILE STRENGTH INDICATORS**
- Network size and engagement level
- Profile completeness score
- Professional activity and thought leadership

QUALITY STANDARDS:
- Use professional, objective language
- Focus on quantifiable achievements when available
- Highlight unique value propositions
- Maintain consistency in tone and structure
- Ensure summary is ATS-friendly and keyword-rich
- Keep each section concise but comprehensive

SPECIAL HANDLING INSTRUCTIONS:
- If any field is empty or null, skip gracefully without mentioning gaps
- Prioritize most recent and relevant information
- Use industry-standard terminology and abbreviations
- Maintain professional confidentiality (don't include personal details unnecessarily)
- Focus on career-relevant information over personal interests

Raw profile data to summarize:
";
    Var "profile_data";
    Lit "

Create a comprehensive, well-structured summary that captures this professional's career story, core competencies, and unique value proposition." ].

Definition create_profile_summary (llm : ChatModel) (profile_data : string)
  : M string :=
  let summarization_chain := chain_invoke summary_prompt (llm_invoke llm) in
  let* response_message :=
    summarization_chain {[ "profile_data" := profile_data ]} in
  ret (content response_message).

(** ** app.py: loading a profile *)

(** What the handler of the button "Scrape & Analyze Profile" works on: the
    world of the chat, the requests sent to Apify so far and
    [st.session_state.profile_data], absent until a profile is loaded. *)
Record App : Type := {
  world : World;
  requests : list Request;
  ss_profile_data : option JSON
}.

(** [st.session_state.profile_summary = summary] and
    [st.session_state.messages = []] *)
Definition store_summary (summary : string) (w : World) : World :=
  {| llm_calls := llm_calls w; node_trace := node_trace w;
     checkpoints := checkpoints w;
     session := {| session_id := session_id (session w);
                   ss_messages := [];
                   profile_summary := summary |} |}.

(** The handler, from [if profile_url:] on, with [llm] the model [get_llm]
    returned and [str] Python's [str] on the scraped profile.  The
    [except Exception] clause catches what the two calls raise and only
    writes to the page, which is not modelled; [st.rerun()] ends the run. *)
Definition scrape_and_analyze_profile (APIFY_API_TOKEN : option string)
    (client : AsyncClient) (str : JSON → string) (llm : ChatModel)
    (profile_url : string) (app : App) : App :=
  if bool_decide (profile_url ≠ "") then
    match scrape_linkedin_profile APIFY_API_TOKEN client profile_url
            (requests app) with
    | (inr profile_data, sent) =>
        match create_profile_summary llm (str profile_data) (world app) with
        | (inr summary, w) =>
            {| world := store_summary summary w; requests := sent;
               ss_profile_data := Some profile_data |}
        | (inl _, w) =>
            {| world := w; requests := sent;
               ss_profile_data := ss_profile_data app |}
        end
    | (inl _, sent) =>
        {| world := world app; requests := sent;
           ss_profile_data := ss_profile_data app |}
    end
  else app.

(** ** app.py: a run of the script *)

(** One run of the chat part of the script, for a loaded profile:
    [prompt] is what [st.chat_input] returns, the empty string when
    nothing was submitted.  An exception ends the run. *)
Definition chat_interface (g : StateGraph) (prompt : string) : M unit :=
  initial_analysis g >> handle_chat_input g prompt.

(** ** Vocabulary of the properties *)

Definition ROLES : list string :=
  ["Profile Analyzer"; "Job Fit Analyzer"; "Content Enhancer";
   "Career Counselor"].

(** [c] is the content of the [HumanMessage] with the greatest index. *)
Definition latest_user_message (ms : list BaseMessage) (c : string) : Prop :=
  ∃ i, ms !! i = Some (HumanMessage c) ∧
       ∀ j m, i < j → ms !! j = Some m → is_HumanMessage m = false.

Definition no_user_message (ms : list BaseMessage) : Prop :=
  ∀ m, m ∈ ms → is_HumanMessage m = false.

(** A backend whose replies depend on the prompt alone. *)
Definition deterministic (llm : ChatModel) : Prop :=
  ∀ calls calls' prompt,
    chat_generate llm calls prompt = chat_generate llm calls' prompt ∧
    chat_structured llm calls prompt = chat_structured llm calls' prompt.

(** The update [{"next": v}] and the update [{"messages": [m]}]. *)
Definition route (v : string) : Update :=
  {| upd_messages := None; upd_profile_data := None; upd_next := Some v |}.

Definition reply (m : BaseMessage) : Update :=
  {| upd_messages := Some [m]; upd_profile_data := None; upd_next := None |}.

(** The state the graph starts from when the chat turn for [prompt] is
    handled in world [w]. *)
Definition turn_state (w : World) (prompt : string) : AgentState :=
  {| messages := ss_messages (session w) ++ [HumanMessage prompt];
     profile_data := profile_summary (session w);
     next := checkpoints w !! session_id (session w) ≫= next |}.

(** The state checkpointed for the session's thread. *)
Definition graph_state (w : World) : option AgentState :=
  checkpoints w !! session_id (session w).

(** The conditional edge [build_graph] attaches to the supervisor. *)
Definition supervisor_branch (llm : ChatModel) : Branch :=
  default {| path := λ _, inl (KeyError "supervisor"); path_map := ∅ |}
    (branches (build_graph llm) !! "supervisor").

(** The claim that a rejected classification is asked for once more: the
    supervisor's call is followed by a second one with the same prompt. *)
Definition retried_once (llm : ChatModel) (st : AgentState) (w : World)
  : Prop :=
  ∃ p, llm_calls (snd (SupervisorAgent llm st w)) =
       llm_calls w ++ [GenerateStructured p; GenerateStructured p].

(** The runs of one turn as the specification lists them: routing fails;
    the router ends the conversation; the role it selects fails or
    replies.  [body] consumes the chunk of each node that returned. *)
Inductive turn_run {A} (llm : ChatModel) (tid : string) (st : AgentState)
    (body : A → string * Update → Exception + A) (acc : A) (w : World)
  : (Exception + A) * World → Prop :=
| routing_fails e w1 :
    SupervisorAgent llm st (log_node "supervisor" w) = (inl e, w1) →
    turn_run llm tid st body acc w (inl e, w1)
| routing_chunk_refused v w1 e :
    SupervisorAgent llm st (log_node "supervisor" w) = (inr (route v), w1) →
    v ∈ NEXT_LITERAL →
    body acc ("supervisor", route v) = inl e →
    turn_run llm tid st body acc w
      (inl e, put_checkpoint tid (apply_update st (route v)) w1)
| ended w1 acc1 :
    SupervisorAgent llm st (log_node "supervisor" w) = (inr (route END), w1) →
    body acc ("supervisor", route END) = inr acc1 →
    turn_run llm tid st body acc w
      (inr acc1, put_checkpoint tid (apply_update st (route END)) w1)
| generation_fails r w1 acc1 builder e w2 :
    SupervisorAgent llm st (log_node "supervisor" w) = (inr (route r), w1) →
    r ∈ ROLES →
    body acc ("supervisor", route r) = inr acc1 →
    nodes (build_graph llm) !! r = Some builder →
    builder (apply_update st (route r))
      (log_node r (put_checkpoint tid (apply_update st (route r)) w1))
      = (inl e, w2) →
    turn_run llm tid st body acc w (inl e, w2)
| replied r w1 acc1 builder text w2 :
    SupervisorAgent llm st (log_node "supervisor" w) = (inr (route r), w1) →
    r ∈ ROLES →
    body acc ("supervisor", route r) = inr acc1 →
    nodes (build_graph llm) !! r = Some builder →
    builder (apply_update st (route r))
      (log_node r (put_checkpoint tid (apply_update st (route r)) w1))
      = (inr (reply (AIMessage text)), w2) →
    turn_run llm tid st body acc w
      (body acc1 (r, reply (AIMessage text)),
       put_checkpoint tid
         (apply_update (apply_update st (route r)) (reply (AIMessage text)))
         w2).

(** ** Stub chat models *)

(** Always routes to [route] and always generates [text]. *)
Definition stub_llm (route text : string) : ChatModel :=
  {| chat_generate := λ _ _, Ok text;
     chat_structured := λ _ _, Ok {[ "next_agent" := route ]} |}.

(** Routes to [route]; every generation call fails with [cause]. *)
Definition failing_llm (route cause : string) : ChatModel :=
  {| chat_generate := λ _ _, Fail cause;
     chat_structured := λ _ _, Ok {[ "next_agent" := route ]} |}.

(** Answers the first call with a classification outside the schema and
    every later call with ["__end__"]. *)
Definition flaky_llm : ChatModel :=
  {| chat_generate := λ _ _, Ok "ok";
     chat_structured := λ calls _,
       match calls with
       | [] => Ok {[ "next_agent" := "Resume Writer" ]}
       | _ => Ok {[ "next_agent" := "__end__" ]}
       end |}.

(** Every call fails with [cause]. *)
Definition down_llm (cause : string) : ChatModel :=
  {| chat_generate := λ _ _, Fail cause;
     chat_structured := λ _ _, Fail cause |}.

Definition fresh_world (sid summary : string) (history : list BaseMessage)
  : World :=
  {| llm_calls := []; node_trace := []; checkpoints := ∅;
     session := {| session_id := sid; ss_messages := history;
                   profile_summary := summary |} |}.

(** The words of a pattern. *)
Inductive lang : regex → string → Prop :=
| lang_Eps : lang Eps ""
| lang_Chr c : lang (Chr c) (String c "")
| lang_Range lo hi c :
    in_range lo hi c = true → lang (Range lo hi) (String c "")
| lang_Seq r1 r2 s1 s2 :
    lang r1 s1 → lang r2 s2 → lang (Seq r1 r2) (s1 +:+ s2)
| lang_Alt_l r1 r2 s : lang r1 s → lang (Alt r1 r2) s
| lang_Alt_r r1 r2 s : lang r2 s → lang (Alt r1 r2) s
| lang_Star_nil r : lang (Star r) ""
| lang_Star_cons r s1 s2 :
    lang r s1 → lang (Star r) s2 → lang (Star r) (s1 +:+ s2).

Fixpoint string_forall (p : ascii → bool) (s : string) : bool :=
  match s with
  | EmptyString => true
  | String c s' => p c && string_forall p s'
  end.

(** The characters of a profile name: ASCII letters, digits and the
    hyphen. *)
Definition is_slug_char (c : ascii) : bool :=
  in_range "a" "z" c || in_range "A" "Z" c || in_range "0" "9" c ||
  bool_decide (c = "-"%char).


(** The request [scrape_linkedin_profile] sends for a profile URL. *)
Definition apify_request (token linkedin_url : string) : Request :=
  {| req_url := "https://api.apify.com/v2/acts/dev_fusion~linkedin-profile-scraper/run-sync-get-dataset-items";
     req_headers := {[ "Content-Type" := "application/json";
                       "Accept" := "application/json";
                       "Authorization" := "Bearer " +:+ token ]};
     req_json := JObject [("profileUrls", JList [JString linkedin_url]);
                          ("maxRetries", JNumber 3);
                          ("timeoutSecs", JNumber 90)];
     req_timeout := 120 |}.

(** A network that answers every request with [response]. *)
Definition stub_client (response : Response) : AsyncClient :=
  λ _ _, Received response.

(** A network that cannot be reached. *)
Definition unreachable_client (message : string) : AsyncClient :=
  λ _ _, RequestError message.

(** The session is kept from one run of the script to the next, also when
    a run ends with an exception: the world after the runs for [prompts],
    oldest first. *)
Fixpoint script_runs (g : StateGraph) (prompts : list string) (w : World)
  : World :=
  match prompts with
  | [] => w
  | prompt :: prompts' => script_runs g prompts' (snd (chat_interface g prompt w))
  end.

(** A history of user and assistant messages in which every assistant
    message has a text and comes right after a user message;
    [after_human] tells whether the message before [ms] is a user
    message. *)
Fixpoint answers_follow_requests (after_human : bool) (ms : list BaseMessage)
  : bool :=
  match ms with
  | [] => true
  | HumanMessage _ :: ms' => answers_follow_requests true ms'
  | AIMessage text :: ms' =>
      after_human && bool_decide (text ≠ "") &&
      answers_follow_requests false ms'
  | SystemMessage _ :: _ => false
  end.

(** Two worlds that differ in a chat history and in nothing the backend
    sees. *)
Definition world_with (calls : list Call) (sid summary : string)
    (history : list BaseMessage) : World :=
  {| llm_calls := calls; node_trace := []; checkpoints := ∅;
     session := {| session_id := sid; ss_messages := history;
                   profile_summary := summary |} |}.

(** * The latest user message *)

Lemma first_human_content_skip (l k : list BaseMessage) :
  Forall (λ m, is_HumanMessage m = false) l →
  first_human_content (l ++ k) = first_human_content k.
Proof.
  induction 1 as [|m l Hm _ IH]; [done|].
  simpl. by rewrite Hm.
Qed.

Lemma get_current_user_message_snoc (ms : list BaseMessage) (m : BaseMessage) :
  get_current_user_message (ms ++ [m]) =
  if is_HumanMessage m then content m else get_current_user_message ms.
Proof. unfold get_current_user_message. by rewrite reverse_snoc. Qed.

Lemma get_current_user_message_middle (pre post : list BaseMessage) (c : string) :
  Forall (λ m, is_HumanMessage m = false) post →
  get_current_user_message (pre ++ HumanMessage c :: post) = c.
Proof.
  intros Hpost. unfold get_current_user_message.
  rewrite reverse_app, reverse_cons, <- app_assoc.
  rewrite first_human_content_skip; [done|].
  by apply Forall_reverse.
Qed.

Lemma latest_user_message_split (ms : list BaseMessage) (c : string) :
  latest_user_message ms c →
  ∃ pre post, ms = pre ++ HumanMessage c :: post ∧
              Forall (λ m, is_HumanMessage m = false) post.
Proof.
  intros (i & Hi & Hlater).
  exists (take i ms), (drop (S i) ms). split.
  - symmetry. by apply take_drop_middle.
  - apply Forall_lookup. intros j m Hj.
    rewrite lookup_drop in Hj. apply (Hlater (S i + j)); [lia|done].
Qed.

Lemma latest_user_message_middle (pre post : list BaseMessage) (c : string) :
  forallb (λ m, negb (is_HumanMessage m)) post = true →
  latest_user_message (pre ++ HumanMessage c :: post) c.
Proof.
  intros Hpost. exists (length pre). split.
  - by rewrite lookup_app_r, Nat.sub_diag by lia.
  - intros j m Hj Hlook.
    rewrite lookup_app_r in Hlook by lia.
    destruct (j - length pre) as [|k] eqn:E; [lia|]. simpl in Hlook.
    apply list_elem_of_lookup_2, list_elem_of_In in Hlook.
    rewrite forallb_forall in Hpost. apply Hpost in Hlook.
    by apply negb_true_iff.
Qed.

Lemma get_current_user_message_cases (ms : list BaseMessage) :
  (no_user_message ms ∧ get_current_user_message ms = "") ∨
  latest_user_message ms (get_current_user_message ms).
Proof.
  induction ms as [|m ms IH] using rev_ind.
  - left. split; [|done]. intros m Hm. by apply elem_of_nil in Hm.
  - rewrite get_current_user_message_snoc.
    destruct (is_HumanMessage m) eqn:Hm.
    + right. exists (length ms). split.
      * rewrite lookup_app_r, Nat.sub_diag by lia. by destruct m.
      * intros j m' Hj Hlook. apply lookup_lt_Some in Hlook.
        rewrite length_app in Hlook. simpl in Hlook. lia.
    + destruct IH as [[Hno Hc]|(i & Hi & Hlater)].
      * left. split; [|done]. intros m' [Hin|Hin%list_elem_of_singleton]%elem_of_app;
          [by apply Hno|by subst].
      * right. exists i. split.
        -- by apply lookup_app_l_Some.
        -- intros j m' Hj Hlook.
           destruct (decide (j < length ms)) as [Hlt|Hge].
           ++ rewrite lookup_app_l in Hlook by done. by apply (Hlater j).
           ++ rewrite lookup_app_r in Hlook by lia.
              destruct (j - length ms) eqn:E; simpl in Hlook; [|done].
              by simplify_eq.
Qed.

Lemma get_current_user_message_latest (ms : list BaseMessage) (c : string) :
  latest_user_message ms c → get_current_user_message ms = c.
Proof.
  intros (pre & post & -> & Hpost)%latest_user_message_split.
  by apply get_current_user_message_middle.
Qed.

Lemma get_current_user_message_none (ms : list BaseMessage) :
  no_user_message ms → get_current_user_message ms = "".
Proof.
  intros Hno. destruct (get_current_user_message_cases ms) as [[_ ?]|Hl]; [done|].
  destruct Hl as (i & Hi & _).
  apply list_elem_of_lookup_2, Hno in Hi. done.
Qed.

(** C10.  [get_current_user_message] returns the content of the
    [HumanMessage] with the greatest index, whatever follows it and
    whatever the roles of its neighbours, and the empty string when the
    list holds no [HumanMessage]; every list is in one of the two cases. *)
Theorem get_current_user_message_spec (messages : list BaseMessage) :
  (∀ c, latest_user_message messages c →
        get_current_user_message messages = c) ∧
  (no_user_message messages → get_current_user_message messages = "") ∧
  (no_user_message messages ∨ ∃ c, latest_user_message messages c).
Proof.
  split; [|split].
  - apply get_current_user_message_latest.
  - apply get_current_user_message_none.
  - destruct (get_current_user_message_cases messages) as [[? _]|?]; eauto.
Qed.

Lemma get_current_user_message_spec_witness :
  get_current_user_message
    [HumanMessage "a"; HumanMessage "b"; AIMessage "c"; AIMessage "d"] = "b" ∧
  get_current_user_message [AIMessage "c"; SystemMessage "s"] = "".
Proof.
  split.
  - apply (proj1 (get_current_user_message_spec
        [HumanMessage "a"; HumanMessage "b"; AIMessage "c"; AIMessage "d"])).
    apply (latest_user_message_middle [HumanMessage "a"] [AIMessage "c"; AIMessage "d"]).
    reflexivity.
  - apply (proj1 (proj2 (get_current_user_message_spec
        [AIMessage "c"; SystemMessage "s"]))).
    intros m Hm. apply list_elem_of_In in Hm. simpl in Hm.
    destruct Hm as [<-|[<-|[]]]; reflexivity.
Defined.

(** * The router *)

Lemma format_supervisor_prompt (c : string) :
  ∃ p, format_prompt supervisor_prompt {[ "current_request" := c ]} = inr p.
Proof. eexists. reflexivity. Qed.

(** The prompt [p] the supervisor sends for the state [st]. *)
Ltac supervisor_request st p Hp :=
  destruct (format_supervisor_prompt
              (get_current_user_message (messages st))) as [p Hp].

Lemma model_validate_inr (args : gmap string string) (r : SupervisorRouterFormatter) :
  model_validate args = inr r →
  args !! "next_agent" = Some (next_agent r) ∧ next_agent r ∈ NEXT_LITERAL.
Proof.
  unfold model_validate. destruct (args !! "next_agent") as [v|]; [|done].
  case_bool_decide; [|done]. intros [= <-]. done.
Qed.

Lemma model_validate_inl (args : gmap string string) (e : Exception) :
  model_validate args = inl e →
  e = ValidationError "next_agent" (args !! "next_agent") ∧
  ∀ v, args !! "next_agent" = Some v → v ∉ NEXT_LITERAL.
Proof.
  unfold model_validate. destruct (args !! "next_agent") as [v|].
  - case_bool_decide; [done|]. intros [= <-]. split; [done|].
    by intros ? [= <-].
  - intros [= <-]. done.
Qed.

Lemma SupervisorAgent_run (llm : ChatModel) (st : AgentState) (w : World) (p : string) :
  format_prompt supervisor_prompt
    {[ "current_request" := get_current_user_message (messages st) ]} = inr p →
  SupervisorAgent llm st w =
    (match chat_structured llm (llm_calls w) p with
     | Ok args =>
         match model_validate args with
         | inr r => inr (route (next_agent r))
         | inl e => inl e
         end
     | Fail cause => inl (LLMError cause)
     end, log_call (GenerateStructured p) w).
Proof.
  intros Hp. unfold SupervisorAgent, chain_invoke, bind, lift.
  rewrite Hp. unfold with_structured_output.
  destruct (chat_structured llm (llm_calls w) p) as [args|cause]; [|done].
  by destruct (model_validate args).
Qed.

Lemma SupervisorAgent_inr (llm : ChatModel) (st : AgentState) (w w' : World)
    (u : Update) :
  SupervisorAgent llm st w = (inr u, w') →
  ∃ v, u = route v ∧ v ∈ NEXT_LITERAL.
Proof.
  supervisor_request st p Hp.
  rewrite (SupervisorAgent_run llm st w p Hp).
  destruct (chat_structured llm (llm_calls w) p) as [args|cause]; [|done].
  destruct (model_validate args) as [e|r] eqn:Hv; [done|].
  intros [= <- _]. exists (next_agent r). split; [done|].
  by apply model_validate_inr in Hv as [_ ?].
Qed.

Lemma SupervisorAgent_inl (llm : ChatModel) (st : AgentState) (w w1 : World)
    (e : Exception) :
  SupervisorAgent llm st w = (inl e, w1) →
  (∃ cause, e = LLMError cause) ∨ (∃ i, e = ValidationError "next_agent" i).
Proof.
  supervisor_request st p Hp.
  rewrite (SupervisorAgent_run llm st w p Hp).
  destruct (chat_structured llm (llm_calls w) p) as [args|cause].
  - destruct (model_validate args) as [e'|r] eqn:Hv; [|done].
    intros [= <- _]. apply model_validate_inl in Hv as [-> _]. eauto.
  - intros [= <- _]. eauto.
Qed.

Lemma SupervisorAgent_world (llm : ChatModel) (st : AgentState) (w w1 : World)
    (x : Exception + Update) :
  SupervisorAgent llm st w = (x, w1) →
  ∃ p, w1 = log_call (GenerateStructured p) w.
Proof.
  supervisor_request st p Hp.
  rewrite (SupervisorAgent_run llm st w p Hp). intros [= _ <-]. by exists p.
Qed.

Lemma SupervisorAgent_frame (llm : ChatModel) (st : AgentState) (w w' : World) :
  llm_calls w = llm_calls w' →
  fst (SupervisorAgent llm st w) = fst (SupervisorAgent llm st w').
Proof.
  intros Hcalls.
  supervisor_request st p Hp.
  rewrite !(SupervisorAgent_run llm st _ p Hp). simpl. by rewrite Hcalls.
Qed.

Lemma SupervisorAgent_same_request (llm : ChatModel) (st1 st2 : AgentState)
    (w1 w2 : World) :
  deterministic llm →
  get_current_user_message (messages st1) =
  get_current_user_message (messages st2) →
  fst (SupervisorAgent llm st1 w1) = fst (SupervisorAgent llm st2 w2).
Proof.
  intros Hdet Heq.
  supervisor_request st1 p Hp.
  rewrite (SupervisorAgent_run llm st1 w1 p Hp).
  rewrite Heq in Hp. rewrite (SupervisorAgent_run llm st2 w2 p Hp).
  simpl. by rewrite (proj2 (Hdet (llm_calls w1) (llm_calls w2) p)).
Qed.

(** C1.  With a deterministic backend, two states whose latest user
    message has the same content get the same outcome from the supervisor
    (the same routing update or the same exception), whatever else their
    histories, their profile data, their [next] key and the worlds hold. *)
Theorem router_depends_on_latest_user_message_only (llm : ChatModel)
    (st1 st2 : AgentState) (w1 w2 : World) (c : string) :
  deterministic llm →
  latest_user_message (messages st1) c →
  latest_user_message (messages st2) c →
  fst (SupervisorAgent llm st1 w1) = fst (SupervisorAgent llm st2 w2).
Proof.
  intros Hdet H1 H2. apply SupervisorAgent_same_request; [done|].
  by rewrite (get_current_user_message_latest _ c H1),
             (get_current_user_message_latest _ c H2).
Qed.

Lemma stub_llm_deterministic (route text : string) :
  deterministic (stub_llm route text).
Proof. intros calls calls' prompt. split; reflexivity. Qed.

Lemma router_depends_on_latest_user_message_only_witness :
  fst (SupervisorAgent (stub_llm "Content Enhancer" "ok")
         {| messages := [HumanMessage "How do I improve my headline?"];
            profile_data := ""; next := None |}
         (fresh_world "s1" "" [])) =
  fst (SupervisorAgent (stub_llm "Content Enhancer" "ok")
         {| messages := [HumanMessage "Analyze my profile";
                         AIMessage "Your profile ...";
                         HumanMessage "How do I improve my headline?";
                         AIMessage "partial"];
            profile_data := "Senior backend engineer";
            next := Some "Profile Analyzer" |}
         (log_call (Generate "earlier") (fresh_world "s2" "x" []))).
Proof.
  apply (router_depends_on_latest_user_message_only
           (stub_llm "Content Enhancer" "ok") _ _ _ _
           "How do I improve my headline?").
  - apply stub_llm_deterministic.
  - apply (latest_user_message_middle [] []). reflexivity.
  - apply (latest_user_message_middle
             [HumanMessage "Analyze my profile"; AIMessage "Your profile ..."]
             [AIMessage "partial"]).
    reflexivity.
Defined.

Lemma NEXT_LITERAL_cases (v : string) :
  v ∈ NEXT_LITERAL ↔ v ∈ ROLES ∨ v = END.
Proof.
  unfold NEXT_LITERAL, ROLES, END. rewrite !elem_of_cons, !elem_of_nil. tauto.
Qed.

(** C5 (as the code has it).  When the latest user message is empty or
    there is none, the supervisor still calls the backend, exactly once and
    with an empty [current_request]; its outcome is the backend's: the
    classification the backend gives when it conforms to the schema, a
    validation error when it does not, and the client's error when the
    call fails.  It ends the conversation exactly when the backend
    answers ["__end__"]. *)
Theorem router_on_empty_request (llm : ChatModel) (st : AgentState)
    (w : World) :
  no_user_message (messages st) ∨ latest_user_message (messages st) "" →
  ∃ p,
    format_prompt supervisor_prompt {[ "current_request" := "" ]} = inr p ∧
    llm_calls (snd (SupervisorAgent llm st w)) =
      llm_calls w ++ [GenerateStructured p] ∧
    fst (SupervisorAgent llm st w) =
      match chat_structured llm (llm_calls w) p with
      | Ok args =>
          match model_validate args with
          | inr r => inr (route (next_agent r))
          | inl e => inl e
          end
      | Fail cause => inl (LLMError cause)
      end ∧
    (fst (SupervisorAgent llm st w) = inr (route END) ↔
     ∃ args, chat_structured llm (llm_calls w) p = Ok args ∧
             args !! "next_agent" = Some END).
Proof.
  intros Hempty.
  assert (get_current_user_message (messages st) = "") as Hc.
  { destruct Hempty as [Hno|Hl].
    - by apply get_current_user_message_none.
    - by apply get_current_user_message_latest. }
  supervisor_request st p Hp.
  exists p. rewrite (SupervisorAgent_run llm st w p Hp). simpl.
  rewrite Hc in Hp. split; [done|].
  split; [done|]. split; [done|].
  destruct (chat_structured llm (llm_calls w) p) as [args|cause].
  - destruct (model_validate args) as [e|r] eqn:Hv.
    + split; [done|]. intros (args' & [= <-] & Hend).
      apply model_validate_inl in Hv as [_ Hv]. destruct (Hv END Hend).
      apply NEXT_LITERAL_cases. by right.
    + apply model_validate_inr in Hv as [Hv _]. split.
      * intros [= Hr]. exists args. by rewrite Hv, Hr.
      * intros (args' & [= <-] & Hend). rewrite Hv in Hend.
        by injection Hend as ->.
  - split; [done|]. by intros (args & ? & _).
Qed.

Lemma router_on_empty_request_witness :
  ∃ p,
    format_prompt supervisor_prompt {[ "current_request" := "" ]} = inr p ∧
    fst (SupervisorAgent (stub_llm "__end__" "bye")
           {| messages := [AIMessage "hello"]; profile_data := "";
              next := None |} (fresh_world "s1" "" [])) = inr (route END).
Proof.
  destruct (router_on_empty_request (stub_llm "__end__" "bye")
              {| messages := [AIMessage "hello"]; profile_data := "";
                 next := None |} (fresh_world "s1" "" []))
    as (p & Hp & _ & Hr & _).
  - left. intros m Hm. apply list_elem_of_In in Hm. simpl in Hm.
    destruct Hm as [<-|[]]. reflexivity.
  - exists p. split; [exact Hp|]. rewrite Hr. reflexivity.
Defined.

(** C5 as stated fails: with no user message in the history the supervisor
    returns the role the backend names, and raises when the backend does. *)
Lemma router_on_empty_request_counterexample :
  let st := {| messages := []; profile_data := ""; next := None |} in
  no_user_message (messages st) ∧
  fst (SupervisorAgent (stub_llm "Profile Analyzer" "ok") st
         (fresh_world "s1" "" [])) = inr (route "Profile Analyzer") ∧
  route "Profile Analyzer" ≠ route END ∧
  fst (SupervisorAgent (down_llm "rate limit") st (fresh_world "s1" "" []))
    = inl (LLMError "rate limit").
Proof.
  split; [|split; [|split]].
  - intros m Hm. by apply elem_of_nil in Hm.
  - reflexivity.
  - discriminate.
  - reflexivity.
Qed.

(** C6 (as the code has it).  The supervisor calls the backend exactly
    once, whatever the reply.  A reply whose [next_agent] is missing or is
    not one of the five literals is rejected with a validation error and
    is not asked for again; a returned update always names one of the five
    literals. *)
Theorem router_rejects_malformed_without_retry (llm : ChatModel)
    (st : AgentState) (w : World) :
  ∃ p,
    format_prompt supervisor_prompt
      {[ "current_request" := get_current_user_message (messages st) ]}
      = inr p ∧
    llm_calls (snd (SupervisorAgent llm st w)) =
      llm_calls w ++ [GenerateStructured p] ∧
    (∀ args,
       chat_structured llm (llm_calls w) p = Ok args →
       (∀ v, args !! "next_agent" = Some v → v ∉ NEXT_LITERAL) →
       fst (SupervisorAgent llm st w) =
         inl (ValidationError "next_agent" (args !! "next_agent"))) ∧
    (∀ u, fst (SupervisorAgent llm st w) = inr u →
          ∃ v, u = route v ∧ v ∈ NEXT_LITERAL) ∧
    ¬ retried_once llm st w.
Proof.
  supervisor_request st p Hp.
  exists p. split; [done|].
  pose proof (SupervisorAgent_run llm st w p Hp) as Hrun.
  split_and!.
  - by rewrite Hrun.
  - intros args Hargs Hbad. rewrite Hrun, Hargs. simpl.
    destruct (model_validate args) as [e|r] eqn:Hv.
    + by apply model_validate_inl in Hv as [-> _].
    + apply model_validate_inr in Hv as [Hv Hin]. by destruct (Hbad _ Hv).
  - intros u Hu.
    destruct (SupervisorAgent llm st w) as [x w1] eqn:Hs. simpl in Hu.
    subst x. by apply SupervisorAgent_inr in Hs.
  - intros [p' Hp']. rewrite Hrun in Hp'. simpl in Hp'.
    apply app_inv_head in Hp'. discriminate.
Qed.

(** C6 as stated fails: the backend's first reply is outside the
    enumeration and its reply to a second call would be ["__end__"], yet
    the supervisor raises after the one call it made. *)
Lemma router_retry_counterexample :
  let st := {| messages := [HumanMessage "bye"]; profile_data := "";
               next := None |} in
  let w := fresh_world "s1" "" [] in
  let out := SupervisorAgent flaky_llm st w in
  ∃ p,
    llm_calls (snd out) = [GenerateStructured p] ∧
    chat_structured flaky_llm (llm_calls w) p =
      Ok {[ "next_agent" := "Resume Writer" ]} ∧
    chat_structured flaky_llm (llm_calls (snd out)) p =
      Ok {[ "next_agent" := "__end__" ]} ∧
    fst out = inl (ValidationError "next_agent" (Some "Resume Writer")) ∧
    ¬ retried_once flaky_llm st w.
Proof.
  eexists. split; [reflexivity|]. split_and!; try reflexivity.
  intros [p' Hp']. discriminate.
Qed.

(** * The role builders *)

Lemma agent_wrapper_run (t : ChatPromptTemplate) (llm : ChatModel)
    (st : AgentState) (w : World) (p : string) :
  format_prompt t
    {[ "profile_data" := profile_data st;
       "current_request" := get_current_user_message (messages st) ]} = inr p →
  agent_wrapper t llm st w =
    (match chat_generate llm (llm_calls w) p with
     | Ok text => inr (reply (AIMessage text))
     | Fail cause => inl (LLMError cause)
     end, log_call (Generate p) w).
Proof.
  intros Hp. unfold agent_wrapper, chain_invoke, bind, lift.
  rewrite Hp. unfold llm_invoke.
  by destruct (chat_generate llm (llm_calls w) p).
Qed.

Lemma agent_wrapper_inr (t : ChatPromptTemplate) (llm : ChatModel)
    (st : AgentState) (w : World) (u : Update) :
  fst (agent_wrapper t llm st w) = inr u → ∃ text, u = reply (AIMessage text).
Proof.
  unfold agent_wrapper, chain_invoke, bind, lift.
  destruct (format_prompt t _) as [e|p]; [done|].
  unfold llm_invoke.
  destruct (chat_generate llm (llm_calls w) p) as [text|cause]; [|done].
  intros [= <-]. by exists text.
Qed.

Lemma ROLES_not_END (r : string) : r ∈ ROLES → r ≠ END.
Proof.
  unfold ROLES, END. rewrite !elem_of_cons, elem_of_nil.
  intros [->|[->|[->|[->|[]]]]]; done.
Qed.

Lemma ROLES_not_supervisor (r : string) : r ∈ ROLES → r ≠ "supervisor".
Proof.
  unfold ROLES. rewrite !elem_of_cons, elem_of_nil.
  intros [->|[->|[->|[->|[]]]]]; done.
Qed.

Create HintDb roles.
#[local] Hint Resolve ROLES_not_END ROLES_not_supervisor : roles.

(** Each role names a node of the graph, an [agent_wrapper] whose prompt
    can be formatted from the two variables it is given. *)
Lemma role_nodes (llm : ChatModel) (r : string) :
  r ∈ ROLES →
  ∃ t, nodes (build_graph llm) !! r = Some (agent_wrapper t llm) ∧
       ∀ pd c, ∃ p,
         format_prompt t {[ "profile_data" := pd; "current_request" := c ]}
         = inr p.
Proof.
  unfold ROLES. rewrite !elem_of_cons, elem_of_nil.
  intros [->|[->|[->|[->|[]]]]];
    eexists; (split; [reflexivity|]); intros; eexists; reflexivity.
Qed.

Lemma node_is_role (llm : ChatModel) (v : string) (builder : Node) :
  v ∈ NEXT_LITERAL → nodes (build_graph llm) !! v = Some builder → v ∈ ROLES.
Proof.
  intros [?| ->]%NEXT_LITERAL_cases; [done|]. discriminate.
Qed.

Lemma builder_world (llm : ChatModel) (r : string) (builder : Node)
    (st : AgentState) (w w1 : World) (x : Exception + Update) :
  r ∈ ROLES → nodes (build_graph llm) !! r = Some builder →
  builder st w = (x, w1) →
  (∃ p, w1 = log_call (Generate p) w) ∧
  ((∃ cause, x = inl (LLMError cause)) ∨
   (∃ text, x = inr (reply (AIMessage text)))).
Proof.
  intros Hr Hnode.
  destruct (role_nodes llm r Hr) as (t & Hnode' & Hfmt).
  rewrite Hnode' in Hnode. injection Hnode as <-.
  destruct (Hfmt (profile_data st) (get_current_user_message (messages st)))
    as [p Hp].
  rewrite (agent_wrapper_run t llm st w p Hp).
  intros [= <- <-]. split; [by exists p|].
  destruct (chat_generate llm (llm_calls w) p); eauto.
Qed.

(** * The edges of the graph *)

Lemma entry_tasks (llm : ChatModel) :
  static_targets (build_graph llm) START = ["supervisor"].
Proof. reflexivity. Qed.

Lemma supervisor_branch_eq (llm : ChatModel) :
  branches (build_graph llm) !! "supervisor" = Some (supervisor_branch llm).
Proof. reflexivity. Qed.

Lemma supervisor_path (llm : ChatModel) (st : AgentState) :
  path (supervisor_branch llm) st =
  match next st with
  | Some key => inr key
  | None => inl (KeyError "next")
  end.
Proof. reflexivity. Qed.

Lemma supervisor_path_map_dom (llm : ChatModel) :
  dom (path_map (supervisor_branch llm)) = list_to_set NEXT_LITERAL.
Proof. reflexivity. Qed.

Lemma supervisor_path_map_Some (llm : ChatModel) (v : string) :
  v ∈ NEXT_LITERAL → path_map (supervisor_branch llm) !! v = Some v.
Proof.
  unfold NEXT_LITERAL. rewrite !elem_of_cons, elem_of_nil.
  intros [->|[->|[->|[->|[->|[]]]]]]; reflexivity.
Qed.

Lemma supervisor_path_map_None (llm : ChatModel) (v : string) :
  v ∉ NEXT_LITERAL → path_map (supervisor_branch llm) !! v = None.
Proof.
  intros Hv. apply not_elem_of_dom.
  by rewrite supervisor_path_map_dom, elem_of_list_to_set.
Qed.

Lemma successors_supervisor (llm : ChatModel) (st : AgentState) (v : string) :
  next st = Some v → v ∈ NEXT_LITERAL →
  successors (build_graph llm) st "supervisor" = inr [v].
Proof.
  intros Hnext Hv. unfold successors, branch_target.
  rewrite supervisor_branch_eq, supervisor_path, Hnext.
  by rewrite supervisor_path_map_Some.
Qed.

Lemma successors_supervisor_unknown (llm : ChatModel) (st : AgentState)
    (v : string) :
  next st = Some v → v ∉ NEXT_LITERAL →
  successors (build_graph llm) st "supervisor" = inl (KeyError v).
Proof.
  intros Hnext Hv. unfold successors, branch_target.
  rewrite supervisor_branch_eq, supervisor_path, Hnext.
  by rewrite supervisor_path_map_None.
Qed.

Lemma successors_role (llm : ChatModel) (st : AgentState) (r : string) :
  r ∈ ROLES → successors (build_graph llm) st r = inr [END].
Proof.
  unfold ROLES. rewrite !elem_of_cons, elem_of_nil.
  intros [->|[->|[->|[->|[]]]]]; reflexivity.
Qed.

Lemma NoDup_NEXT_LITERAL : NoDup NEXT_LITERAL.
Proof.
  unfold NEXT_LITERAL.
  repeat (apply NoDup_cons; split;
          [rewrite ?elem_of_cons, elem_of_nil; intros H; intuition discriminate|]).
  apply NoDup_nil_2.
Qed.

(** C7.  What the supervisor returns names one of the five literals of the
    enumeration, which are distinct.  The keys of the conditional edge map
    are these five and no other; each maps to one destination (a role to
    the node of that name, ["__end__"] to [END]); the supervisor has no
    unconditional edge; so a decision selects exactly one next node, and a
    key outside the enumeration selects none and raises. *)
Theorem routing_decision_selects_exactly_one_edge (llm : ChatModel) :
  (∀ st w u, fst (SupervisorAgent llm st w) = inr u →
             ∃ v, u = route v ∧ v ∈ NEXT_LITERAL) ∧
  NoDup NEXT_LITERAL ∧
  ∃ b : Branch,
    branches (build_graph llm) !! "supervisor" = Some b ∧
    (∀ st, path b st = match next st with
                       | Some key => inr key
                       | None => inl (KeyError "next")
                       end) ∧
    dom (path_map b) = list_to_set NEXT_LITERAL ∧
    size (path_map b) = 5%nat ∧
    (∀ v, v ∈ NEXT_LITERAL → path_map b !! v = Some v) ∧
    (∀ v, v ∈ ROLES → is_Some (nodes (build_graph llm) !! v)) ∧
    (∀ v, v ∉ NEXT_LITERAL → path_map b !! v = None) ∧
    static_targets (build_graph llm) "supervisor" = [] ∧
    (∀ st v, next st = Some v → v ∈ NEXT_LITERAL →
             successors (build_graph llm) st "supervisor" = inr [v]) ∧
    (∀ st v, next st = Some v → v ∉ NEXT_LITERAL →
             successors (build_graph llm) st "supervisor" = inl (KeyError v)).
Proof.
  split; [|split; [apply NoDup_NEXT_LITERAL|]].
  { intros st w u Hu.
    destruct (SupervisorAgent llm st w) as [x w1] eqn:Hs. simpl in Hu.
    subst x. by apply SupervisorAgent_inr in Hs. }
  exists (supervisor_branch llm). split_and!.
  - apply supervisor_branch_eq.
  - apply supervisor_path.
  - apply supervisor_path_map_dom.
  - reflexivity.
  - apply supervisor_path_map_Some.
  - intros v Hv. destruct (role_nodes llm v Hv) as (t & -> & _). eauto.
  - apply supervisor_path_map_None.
  - reflexivity.
  - apply successors_supervisor.
  - apply successors_supervisor_unknown.
Qed.

(** * A run of the graph *)

Section graph_run.
Context {A : Type} (llm : ChatModel) (tid : string).
Context (body : A → string * Update → Exception + A).

Lemma stream_unfold (g : StateGraph) (input : GraphInput) (acc : A)
    (w : World) :
  stream g input tid body acc w =
  let st0 := {| messages := in_messages input;
                profile_data := in_profile_data input;
                next := checkpoints w !! tid ≫= next |} in
  pregel_loop recursion_limit g tid (static_targets g START) st0 body acc
    (put_checkpoint tid st0 w).
Proof. reflexivity. Qed.

Lemma pregel_loop_end (fuel : nat) (g : StateGraph) (st : AgentState)
    (acc : A) (w : World) :
  pregel_loop fuel g tid [END] st body acc w = (inr acc, w).
Proof. by destruct fuel. Qed.

Lemma pregel_loop_single (fuel : nat) (g : StateGraph) (name : string)
    (action : Node) (st : AgentState) (acc : A) (w : World) :
  name ≠ END → nodes g !! name = Some action →
  pregel_loop (S fuel) g tid [name] st body acc w =
  match action st (log_node name w) with
  | (inl e, w1) => (inl e, w1)
  | (inr u, w1) =>
      match successors g (apply_update st u) name with
      | inl e => (inl e, w1)
      | inr tasks =>
          match body acc (name, u) with
          | inl e => (inl e, put_checkpoint tid (apply_update st u) w1)
          | inr acc1 =>
              pregel_loop fuel g tid tasks (apply_update st u) body acc1
                (put_checkpoint tid (apply_update st u) w1)
          end
      end
  end.
Proof.
  intros Hname Hnode. cbn [pregel_loop].
  rewrite filter_cons_True, filter_nil by done.
  unfold mapM, run_task, bind, modify, ret, lift. rewrite Hnode.
  destruct (action st (log_node name w)) as [[e|u] w1]; [done|].
  simpl. destruct (successors g (apply_update st u) name) as [e|tasks]; [done|].
  rewrite app_nil_r.
  by destruct (body acc (name, u)).
Qed.

(** The super-step that runs the supervisor. *)
Lemma pregel_loop_supervisor (fuel : nat) (st : AgentState)
    (acc : A) (w : World) (p : string) :
  format_prompt supervisor_prompt
    {[ "current_request" := get_current_user_message (messages st) ]} = inr p →
  pregel_loop (S fuel) (build_graph llm) tid ["supervisor"] st body acc w =
  let w1 := log_call (GenerateStructured p) (log_node "supervisor" w) in
  match chat_structured llm (llm_calls w) p with
  | Fail cause => (inl (LLMError cause), w1)
  | Ok args =>
      match model_validate args with
      | inl e => (inl e, w1)
      | inr r =>
          let st1 := apply_update st (route (next_agent r)) in
          match body acc ("supervisor", route (next_agent r)) with
          | inl e => (inl e, put_checkpoint tid st1 w1)
          | inr acc1 =>
              pregel_loop fuel (build_graph llm) tid [next_agent r] st1 body
                acc1 (put_checkpoint tid st1 w1)
          end
      end
  end.
Proof.
  intros Hp.
  rewrite (pregel_loop_single _ _ _ (SupervisorAgent llm)) by done.
  rewrite (SupervisorAgent_run _ _ _ p Hp). cbn zeta.
  change (llm_calls (log_node "supervisor" w)) with (llm_calls w).
  destruct (chat_structured llm (llm_calls w) p) as [args|cause]; [|done].
  destruct (model_validate args) as [e|r] eqn:Hv; [done|].
  apply model_validate_inr in Hv as [_ Hin].
  by rewrite (successors_supervisor llm _ (next_agent r)).
Qed.

(** The super-step that runs a role builder. *)
Lemma pregel_loop_role (fuel : nat) (r : string) (st : AgentState)
    (acc : A) (w : World) :
  r ∈ ROLES →
  ∃ t p,
    nodes (build_graph llm) !! r = Some (agent_wrapper t llm) ∧
    format_prompt t
      {[ "profile_data" := profile_data st;
         "current_request" := get_current_user_message (messages st) ]}
      = inr p ∧
    pregel_loop (S fuel) (build_graph llm) tid [r] st body acc w =
    let w1 := log_call (Generate p) (log_node r w) in
    match chat_generate llm (llm_calls w) p with
    | Fail cause => (inl (LLMError cause), w1)
    | Ok text =>
        let st1 := apply_update st (reply (AIMessage text)) in
        match body acc (r, reply (AIMessage text)) with
        | inl e => (inl e, put_checkpoint tid st1 w1)
        | inr acc1 => (inr acc1, put_checkpoint tid st1 w1)
        end
    end.
Proof.
  intros Hr.
  destruct (role_nodes llm r Hr) as (t & Hnode & Hfmt).
  destruct (Hfmt (profile_data st) (get_current_user_message (messages st)))
    as [p Hp].
  exists t, p. split; [done|]. split; [done|].
  rewrite (pregel_loop_single _ _ _ (agent_wrapper t llm))
    by auto with roles.
  rewrite (agent_wrapper_run _ _ _ _ p Hp). cbn zeta.
  change (llm_calls (log_node r w)) with (llm_calls w).
  destruct (chat_generate llm (llm_calls w) p) as [text|cause]; [|done].
  rewrite successors_role by done.
  destruct (body acc (r, reply (AIMessage text))); [done|].
  apply pregel_loop_end.
Qed.

Lemma pregel_loop_role_fuel (fuel : nat) (r : string) (st : AgentState)
    (acc : A) (w : World) :
  r ∈ ROLES →
  pregel_loop (S fuel) (build_graph llm) tid [r] st body acc w =
  pregel_loop 1 (build_graph llm) tid [r] st body acc w.
Proof.
  intros Hr. destruct (role_nodes llm r Hr) as (t & Hnode & _).
  rewrite !(pregel_loop_single _ _ _ (agent_wrapper t llm))
    by auto with roles.
  destruct (agent_wrapper t llm st (log_node r w)) as [[e|u] w1]; [done|].
  rewrite successors_role by done.
  destruct (body acc (r, u)); [done|]. by rewrite !pregel_loop_end.
Qed.

Lemma pregel_loop_fuel (fuel : nat) (st : AgentState)
    (acc : A) (w : World) :
  (2 ≤ fuel)%nat →
  pregel_loop fuel (build_graph llm) tid ["supervisor"] st body acc w =
  pregel_loop 2 (build_graph llm) tid ["supervisor"] st body acc w.
Proof.
  intros Hfuel. destruct fuel as [|[|fuel]]; [lia|lia|].
  supervisor_request st p Hp.
  rewrite !(pregel_loop_supervisor _ st acc w p Hp). cbn zeta.
  destruct (chat_structured llm (llm_calls w) p) as [args|cause]; [|done].
  destruct (model_validate args) as [e|r] eqn:Hv; [done|].
  apply model_validate_inr in Hv as [_ Hin].
  destruct (body acc ("supervisor", route (next_agent r))); [done|].
  apply NEXT_LITERAL_cases in Hin as [Hrole| ->].
  - by apply pregel_loop_role_fuel.
  - by rewrite !pregel_loop_end.
Qed.

Lemma pregel_loop_turn_run (fuel : nat) (st : AgentState)
    (acc : A) (w : World) :
  (2 ≤ fuel)%nat →
  turn_run llm tid st body acc w
    (pregel_loop fuel (build_graph llm) tid ["supervisor"] st body acc w).
Proof.
  intros Hfuel.
  destruct fuel as [|[|fuel]]; [lia|lia|].
  supervisor_request st p Hp.
  rewrite (pregel_loop_supervisor _ st acc w p Hp). cbn zeta.
  pose proof (SupervisorAgent_run llm st (log_node "supervisor" w) p Hp) as Hsup.
  change (llm_calls (log_node "supervisor" w)) with (llm_calls w) in Hsup.
  destruct (chat_structured llm (llm_calls w) p) as [args|cause];
    [|by apply routing_fails].
  destruct (model_validate args) as [e|r] eqn:Hv; [by apply routing_fails|].
  apply model_validate_inr in Hv as [_ Hin].
  destruct (body acc ("supervisor", route (next_agent r))) as [e|acc1] eqn:Hb;
    [by apply routing_chunk_refused|].
  apply NEXT_LITERAL_cases in Hin as [Hrole|Hend].
  - destruct (pregel_loop_role fuel (next_agent r)
                (apply_update st (route (next_agent r))) acc1
                (put_checkpoint tid (apply_update st (route (next_agent r)))
                   (log_call (GenerateStructured p) (log_node "supervisor" w)))
                Hrole) as (t & p2 & Hnode & Hp2 & ->).
    cbn zeta.
    pose proof (agent_wrapper_run t llm _
      (log_node (next_agent r)
         (put_checkpoint tid (apply_update st (route (next_agent r)))
            (log_call (GenerateStructured p) (log_node "supervisor" w))))
      p2 Hp2) as Hrun.
    cbn [llm_calls log_node put_checkpoint log_call] in Hrun |- *.
    destruct (chat_generate llm (llm_calls w ++ [GenerateStructured p]) p2)
      as [text|cause].
    + assert (∀ (x : Exception + A) (w' : World),
                match x with inl e => (inl e, w') | inr a => (inr a, w') end
                = (x, w')) as Hx by (by intros [?|?] ?).
      rewrite Hx. by eapply replied.
    + by eapply generation_fails.
  - rewrite Hend in *. rewrite pregel_loop_end. by apply ended.
Qed.

Lemma stream_turn_run (input : GraphInput) (acc : A) (w : World) :
  let st0 := {| messages := in_messages input;
                profile_data := in_profile_data input;
                next := checkpoints w !! tid ≫= next |} in
  turn_run llm tid st0 body acc (put_checkpoint tid st0 w)
    (stream (build_graph llm) input tid body acc w).
Proof.
  intros st0. rewrite stream_unfold, entry_tasks.
  apply pregel_loop_turn_run. unfold recursion_limit. lia.
Qed.

(** Inversion of a run, with the supervisor's world made explicit. *)
Ltac invert_turn_run H :=
  let p := fresh "p" in
  inversion H as [e w1 Hs|v w1 e Hs Hv Hb|w1 acc1 Hs Hb
                 |r w1 acc1 builder e w2 Hs Hr Hb Hn Hbuild
                 |r w1 acc1 builder text w2 Hs Hr Hb Hn Hbuild];
  subst; apply SupervisorAgent_world in Hs as [p ->].

Lemma turn_run_frame (st : AgentState) (acc : A) (w w' : World)
    (x : Exception + A) :
  turn_run llm tid st body acc w (x, w') →
  session w' = session w ∧
  (checkpoints w !! tid = Some st →
   ∃ st', checkpoints w' !! tid = Some st' ∧
          profile_data st' = profile_data st).
Proof.
  intros Hrun. invert_turn_run Hrun;
    try (apply (builder_world llm r builder) in Hbuild as [[p2 ->] _];
         [|done..]);
    (split; [done|]); intros Hck; cbn; rewrite ?lookup_insert_eq; eauto.
Qed.

(** The nodes a run invokes and the calls it makes. *)
Lemma turn_run_trace (st : AgentState) (acc : A) (w w' : World)
    (x : Exception + A) :
  turn_run llm tid st body acc w (x, w') →
  ∃ p1,
    (node_trace w' = node_trace w ++ ["supervisor"] ∧
     llm_calls w' = llm_calls w ++ [GenerateStructured p1]) ∨
    (∃ r p2, r ∈ ROLES ∧
       node_trace w' = node_trace w ++ ["supervisor"; r] ∧
       llm_calls w' = llm_calls w ++ [GenerateStructured p1; Generate p2]).
Proof.
  intros Hrun. invert_turn_run Hrun; exists p;
    try (apply (builder_world llm r builder) in Hbuild as [[p2 ->] _];
         [|done..]);
    cbn; rewrite <- ?app_assoc; eauto 10.
Qed.

(** An exception of a run is the backend's, the validation's or the
    consumer's. *)
Lemma turn_run_exception (st : AgentState) (acc : A) (w w' : World)
    (e : Exception) :
  turn_run llm tid st body acc w (inl e, w') →
  (∃ cause, e = LLMError cause) ∨
  (∃ i, e = ValidationError "next_agent" i) ∨
  (∃ a c, body a c = inl e).
Proof.
  inversion 1 as [e' w1 Hs|v w1 e' Hs Hv Hb|w1 acc1 Hs Hb
                 |r w1 acc1 builder e' w2 Hs Hr Hb Hn Hbuild
                 |r w1 acc1 builder text w2 Hs Hr Hb Hn Hbuild Heq]; subst.
  - apply SupervisorAgent_inl in Hs as [?|?]; eauto.
  - eauto.
  - apply (builder_world llm r builder) in Hbuild as [_ [[? ?]|[? ?]]];
      [|done..]; simplify_eq; eauto.
  - eauto.
Qed.

(** C8.  A turn runs the supervisor once and then at most one role
    builder: the nodes invoked during [stream] are ["supervisor"] alone or
    ["supervisor"] followed by one role, the backend is called once by the
    router and at most once more by a builder, the run is over after two
    super-steps whatever the recursion limit, and the only edge out of a
    role leads to [END]. *)
Theorem turn_runs_router_then_at_most_one_builder (input : GraphInput)
    (acc : A) (w : World) :
  let g := build_graph llm in
  let out := stream g input tid body acc w in
  (∃ p1,
     (node_trace (snd out) = node_trace w ++ ["supervisor"] ∧
      llm_calls (snd out) = llm_calls w ++ [GenerateStructured p1]) ∨
     (∃ r p2, r ∈ ROLES ∧
        node_trace (snd out) = node_trace w ++ ["supervisor"; r] ∧
        llm_calls (snd out) =
          llm_calls w ++ [GenerateStructured p1; Generate p2])) ∧
  (∀ fuel st w', (2 ≤ fuel)%nat →
     pregel_loop fuel g tid ["supervisor"] st body acc w' =
     pregel_loop 2 g tid ["supervisor"] st body acc w') ∧
  ((∀ a c, body a c ≠ inl GraphRecursionError) →
   fst out ≠ inl GraphRecursionError) ∧
  static_targets g START = ["supervisor"] ∧
  (∀ r st, r ∈ ROLES → successors g st r = inr [END]).
Proof.
  intros g out.
  pose proof (stream_turn_run input acc w) as Hrun.
  cbn zeta in Hrun. fold g in Hrun. fold out in Hrun.
  destruct out as [x w'].
  split_and!.
  - by apply turn_run_trace in Hrun.
  - intros fuel st w'' Hfuel. by apply pregel_loop_fuel.
  - intros Hbody [= ->].
    apply turn_run_exception in Hrun as [[? ?]|[[? ?]|(a & c & Hac)]];
      [done|done|]. by destruct (Hbody a c).
  - reflexivity.
  - intros r st. apply successors_role.
Qed.

Lemma stream_end (input : GraphInput) (acc : A) (w : World) :
  let st0 := {| messages := in_messages input;
                profile_data := in_profile_data input;
                next := checkpoints w !! tid ≫= next |} in
  fst (SupervisorAgent llm st0 w) = inr (route END) →
  let out := stream (build_graph llm) input tid body acc w in
  fst out = body acc ("supervisor", route END) ∧
  node_trace (snd out) = node_trace w ++ ["supervisor"] ∧
  (∃ p, llm_calls (snd out) = llm_calls w ++ [GenerateStructured p]) ∧
  checkpoints (snd out) !! tid =
    Some {| messages := in_messages input;
            profile_data := in_profile_data input; next := Some END |} ∧
  session (snd out) = session w.
Proof.
  intros st0 Hend out.
  pose proof (stream_turn_run input acc w) as Hrun.
  cbn zeta in Hrun. fold st0 in Hrun. fold out in Hrun.
  rewrite (SupervisorAgent_frame llm st0 w
             (log_node "supervisor" (put_checkpoint tid st0 w))) in Hend
    by done.
  inversion Hrun as [e w1 Hs Heq|v w1 e Hs Hv Hb Heq|w1 acc1 Hs Hb Heq
                    |r w1 acc1 builder e w2 Hs Hr Hb Hn Hbuild Heq
                    |r w1 acc1 builder text w2 Hs Hr Hb Hn Hbuild Heq];
    rewrite Hs in Hend; simpl in Hend; simplify_eq.
  - apply SupervisorAgent_world in Hs as [p ->]. cbn.
    rewrite lookup_insert_eq. split_and!; eauto.
  - apply SupervisorAgent_world in Hs as [p ->]. cbn.
    rewrite lookup_insert_eq. split_and!; eauto.
Qed.

End graph_run.

(** * The chat turn *)

Lemma on_chunk_supervisor (acc : string) (u : Update) :
  on_chunk acc ("supervisor", u) = inr acc.
Proof. reflexivity. Qed.

Lemma on_chunk_role (acc r text : string) :
  r ∈ ROLES →
  on_chunk acc (r, reply (AIMessage text)) =
  inr (if bool_decide (text ≠ "") then text else acc).
Proof.
  intros Hr%ROLES_not_supervisor. unfold on_chunk.
  rewrite bool_decide_true by done. simpl. by case_bool_decide.
Qed.

Lemma handle_chat_input_unfold (llm : ChatModel) (prompt : string) (w : World) :
  prompt ≠ "" →
  handle_chat_input (build_graph llm) prompt w =
  match
    pregel_loop recursion_limit (build_graph llm) (session_id (session w))
      ["supervisor"] (turn_state w prompt) on_chunk ""
      (put_checkpoint (session_id (session w)) (turn_state w prompt)
         (session_append (HumanMessage prompt) w))
  with
  | (inl e, w') => (inl e, w')
  | (inr final, w') =>
      if bool_decide (final ≠ "")
      then (inr tt, session_append (AIMessage final) w')
      else (inr tt, w')
  end.
Proof.
  intros Hprompt.
  unfold handle_chat_input. rewrite bool_decide_true by done.
  unfold bind at 1. unfold modify at 1. unfold bind at 1. unfold get_world.
  unfold bind at 1.
  rewrite stream_unfold, entry_tasks. cbn zeta.
  cbn [session session_append ss_messages profile_summary session_id checkpoints].
  fold (turn_state w prompt).
  destruct (pregel_loop _ _ _ _ _ _ _ _) as [[e|final] w']; [done|].
  by case_bool_decide.
Qed.

Lemma handle_chat_input_run (llm : ChatModel) (prompt : string) (w : World) :
  prompt ≠ "" →
  ∃ x w',
    turn_run llm (session_id (session w)) (turn_state w prompt) on_chunk ""
      (put_checkpoint (session_id (session w)) (turn_state w prompt)
         (session_append (HumanMessage prompt) w))
      (x, w') ∧
    handle_chat_input (build_graph llm) prompt w =
    match x with
    | inl e => (inl e, w')
    | inr final =>
        if bool_decide (final ≠ "")
        then (inr tt, session_append (AIMessage final) w')
        else (inr tt, w')
    end.
Proof.
  intros Hprompt. rewrite handle_chat_input_unfold by done.
  pose proof (pregel_loop_turn_run llm (session_id (session w)) on_chunk
    recursion_limit (turn_state w prompt) ""
    (put_checkpoint (session_id (session w)) (turn_state w prompt)
       (session_append (HumanMessage prompt) w))) as Hrun.
  destruct (pregel_loop _ _ _ _ _ _ _ _) as [x w'].
  exists x, w'. split; [|by destruct x].
  apply Hrun. unfold recursion_limit. lia.
Qed.

(** The chat turn for a non-empty [prompt], case by case on what the
    supervisor and the selected builder return when run on the turn's
    state. *)
Lemma chat_turn_cases (llm : ChatModel) (prompt : string) (w : World) :
  prompt ≠ "" →
  let st0 := turn_state w prompt in
  let out := handle_chat_input (build_graph llm) prompt w in
  let ms := ss_messages (session w) ++ [HumanMessage prompt] in
  match SupervisorAgent llm st0 w with
  | (inl e, w1) =>
      fst out = inl e ∧
      ss_messages (session (snd out)) = ms ∧
      node_trace (snd out) = node_trace w ++ ["supervisor"] ∧
      llm_calls (snd out) = llm_calls w1 ∧
      graph_state (snd out) = Some st0
  | (inr u, w1) =>
      let st1 := apply_update st0 u in
      ∃ v, u = route v ∧ v ∈ NEXT_LITERAL ∧
      if decide (v = END) then
        fst out = inr tt ∧
        ss_messages (session (snd out)) = ms ∧
        node_trace (snd out) = node_trace w ++ ["supervisor"] ∧
        llm_calls (snd out) = llm_calls w1 ∧
        graph_state (snd out) = Some st1
      else
        ∃ builder : Node, nodes (build_graph llm) !! v = Some builder ∧
        match builder st1 w1 with
        | (inl e, w2) =>
            fst out = inl e ∧
            ss_messages (session (snd out)) = ms ∧
            node_trace (snd out) = node_trace w ++ ["supervisor"; v] ∧
            llm_calls (snd out) = llm_calls w2 ∧
            graph_state (snd out) = Some st1
        | (inr u2, w2) =>
            ∃ text, u2 = reply (AIMessage text) ∧
            fst out = inr tt ∧
            ss_messages (session (snd out)) =
              ms ++ (if bool_decide (text ≠ "") then [AIMessage text] else []) ∧
            node_trace (snd out) = node_trace w ++ ["supervisor"; v] ∧
            llm_calls (snd out) = llm_calls w2 ∧
            graph_state (snd out) = Some (apply_update st1 u2)
        end
  end.
Proof.
  intros Hprompt st0 out ms. subst out.
  rewrite handle_chat_input_unfold by done. fold st0.
  supervisor_request st0 p Hp.
  unfold recursion_limit.
  rewrite (pregel_loop_supervisor llm _ on_chunk _ st0 "" _ p Hp).
  rewrite (SupervisorAgent_run llm st0 w p Hp). cbn zeta.
  cbn [llm_calls put_checkpoint session_append].
  destruct (chat_structured llm (llm_calls w) p) as [args|cause];
    [|unfold graph_state; cbn; by rewrite lookup_insert_eq].
  destruct (model_validate args) as [e|r] eqn:Hv;
    [unfold graph_state; cbn; by rewrite lookup_insert_eq|].
  apply model_validate_inr in Hv as [_ Hin].
  exists (next_agent r). split; [done|]. split; [done|].
  rewrite on_chunk_supervisor.
  apply NEXT_LITERAL_cases in Hin as [Hrole|Hend].
  - rewrite decide_False by auto with roles.
    edestruct (pregel_loop_role (A:=string) llm) as (t & p2 & Hnode & Hp2 & ->);
      [exact Hrole|].
    exists (agent_wrapper t llm). split; [done|].
    rewrite (agent_wrapper_run t llm _ _ p2 Hp2). cbn zeta.
    cbn [llm_calls put_checkpoint log_node log_call session_append].
    destruct (chat_generate llm (llm_calls w ++ [GenerateStructured p]) p2)
      as [text|cause].
    + exists text. split; [done|]. rewrite on_chunk_role by done.
      destruct (decide (text = "")) as [->|Hne].
      * rewrite !(bool_decide_false ("" ≠ "")) by (by intros ?).
        unfold graph_state; cbn.
        by rewrite app_nil_r, lookup_insert_eq, <- !app_assoc.
      * rewrite !(bool_decide_true (text ≠ "")) by done.
        unfold graph_state; cbn.
        subst ms. by rewrite lookup_insert_eq, <- !app_assoc.
    + unfold graph_state; cbn. by rewrite lookup_insert_eq, <- !app_assoc.
  - rewrite decide_True by done. rewrite Hend, pregel_loop_end.
    rewrite bool_decide_false by (by intros ?).
    unfold graph_state; cbn. by rewrite lookup_insert_eq.
Qed.

Lemma is_substring_empty (a : string) : a ≠ "" → is_substring a "" = false.
Proof. by destruct a. Qed.

Lemma on_initial_chunk_supervisor (acc : string) (u : Update) :
  on_initial_chunk acc ("supervisor", u) = inr acc.
Proof. reflexivity. Qed.

Lemma on_initial_chunk_first (r text : string) :
  on_initial_chunk "" (r, reply (AIMessage text)) =
  on_chunk "" (r, reply (AIMessage text)).
Proof.
  unfold on_initial_chunk, on_chunk. case_bool_decide; [|done].
  cbn [upd_messages reply last is_AIMessage content].
  destruct (decide (text = "")) as [->|Ht].
  - by rewrite !(bool_decide_false ("" ≠ "")) by (by intros ?).
  - rewrite !(bool_decide_true (text ≠ "")) by done.
    by rewrite is_substring_empty.
Qed.

Lemma pregel_loop_on_initial_chunk (llm : ChatModel) (fuel : nat)
    (tid : string) (st : AgentState) (w : World) :
  pregel_loop (S (S fuel)) (build_graph llm) tid ["supervisor"] st
    on_initial_chunk "" w =
  pregel_loop (S (S fuel)) (build_graph llm) tid ["supervisor"] st
    on_chunk "" w.
Proof.
  supervisor_request st p Hp.
  rewrite !(pregel_loop_supervisor llm tid _ _ st "" w p Hp). cbn zeta.
  destruct (chat_structured llm (llm_calls w) p) as [args|cause]; [|done].
  destruct (model_validate args) as [e|r] eqn:Hv; [done|].
  apply model_validate_inr in Hv as [_ Hin].
  rewrite on_initial_chunk_supervisor, on_chunk_supervisor.
  apply NEXT_LITERAL_cases in Hin as [Hrole| ->];
    [|by rewrite !pregel_loop_end].
  destruct (role_nodes llm (next_agent r) Hrole) as (t & Hnode & Hfmt).
  rewrite !(pregel_loop_single _ _ _ _ _ (agent_wrapper t llm))
    by auto with roles.
  destruct (agent_wrapper t llm _ _) as [[e|u] w1] eqn:Hw; [done|].
  assert (fst (agent_wrapper t llm
                 (apply_update st (route (next_agent r)))
                 (log_node (next_agent r)
                    (put_checkpoint tid (apply_update st (route (next_agent r)))
                       (log_call (GenerateStructured p)
                          (log_node "supervisor" w))))) = inr u) as Hu
    by (by rewrite Hw).
  apply agent_wrapper_inr in Hu as [text ->].
  rewrite successors_role by done. rewrite on_initial_chunk_first.
  destruct (on_chunk _ _); [done|]. by rewrite !pregel_loop_end.
Qed.

(** The turn the app starts on an empty chat is the chat turn for
    [initial_prompt]. *)
Lemma initial_analysis_is_chat_turn (llm : ChatModel) (w : World) :
  ss_messages (session w) = [] →
  initial_analysis (build_graph llm) w =
  handle_chat_input (build_graph llm) (content initial_prompt) w.
Proof.
  intros Hempty. rewrite handle_chat_input_unfold by done.
  unfold initial_analysis, bind at 1, get_world.
  rewrite bool_decide_true by done.
  unfold bind at 1. unfold modify at 1. unfold bind at 1.
  rewrite stream_unfold, entry_tasks. cbn zeta.
  cbn [session session_append ss_messages profile_summary session_id checkpoints].
  unfold turn_state. rewrite Hempty. cbn [app content initial_prompt].
  unfold recursion_limit. rewrite pregel_loop_on_initial_chunk.
  destruct (pregel_loop _ _ _ _ _ _ _ _) as [[e|final] w']; [done|].
  by case_bool_decide.
Qed.

(** * The dispatcher *)

(** C4.  When the supervisor's decision on a state is ["__end__"], the run
    reaches [END] after the supervisor alone: no role builder is invoked,
    the backend has served the router's call and no other, the only chunk
    handed to the consumer is the supervisor's, and the state checkpointed
    for the thread has the messages it was given.  The chat turn then
    returns having added nothing to the session history after the user's
    message. *)
Theorem end_decision_ends_turn_without_reply (llm : ChatModel) :
  (∀ A (input : GraphInput) (tid : string)
     (body : A → string * Update → Exception + A) (acc : A) (w : World),
     let st0 := {| messages := in_messages input;
                   profile_data := in_profile_data input;
                   next := checkpoints w !! tid ≫= next |} in
     fst (SupervisorAgent llm st0 w) = inr (route END) →
     let out := stream (build_graph llm) input tid body acc w in
     fst out = body acc ("supervisor", route END) ∧
     node_trace (snd out) = node_trace w ++ ["supervisor"] ∧
     (∃ p, llm_calls (snd out) = llm_calls w ++ [GenerateStructured p]) ∧
     checkpoints (snd out) !! tid =
       Some {| messages := in_messages input;
               profile_data := in_profile_data input; next := Some END |} ∧
     session (snd out) = session w) ∧
  (∀ (prompt : string) (w : World),
     prompt ≠ "" →
     fst (SupervisorAgent llm (turn_state w prompt) w) = inr (route END) →
     let out := handle_chat_input (build_graph llm) prompt w in
     fst out = inr tt ∧
     ss_messages (session (snd out)) =
       ss_messages (session w) ++ [HumanMessage prompt] ∧
     node_trace (snd out) = node_trace w ++ ["supervisor"] ∧
     (∃ p, llm_calls (snd out) = llm_calls w ++ [GenerateStructured p]) ∧
     graph_state (snd out) =
       Some {| messages := ss_messages (session w) ++ [HumanMessage prompt];
               profile_data := profile_summary (session w);
               next := Some END |}).
Proof.
  split; [intros; by apply stream_end|].
  intros prompt w Hprompt Hend out.
  pose proof (chat_turn_cases llm prompt w Hprompt) as H. cbn zeta in H.
  fold out in H.
  destruct (SupervisorAgent llm (turn_state w prompt) w) as [x w1] eqn:Hs.
  simpl in Hend. subst x.
  destruct H as (v & [= <-] & _ & H). rewrite decide_True in H by done.
  destruct H as (H1 & H2 & H3 & H4 & H5).
  apply SupervisorAgent_world in Hs as [p ->].
  split_and!; try done. by exists p.
Qed.

Lemma end_decision_ends_turn_without_reply_witness :
  let out := handle_chat_input (build_graph (stub_llm "__end__" "unused"))
               "goodbye" (fresh_world "s1" "Senior backend engineer" []) in
  fst out = inr tt ∧
  ss_messages (session (snd out)) = [HumanMessage "goodbye"] ∧
  node_trace (snd out) = ["supervisor"].
Proof.
  destruct (proj2 (end_decision_ends_turn_without_reply
                     (stub_llm "__end__" "unused")) "goodbye"
              (fresh_world "s1" "Senior backend engineer" []))
    as (H1 & H2 & H3 & _).
  - discriminate.
  - reflexivity.
  - split; [exact H1|]. split; [exact H2|exact H3].
Defined.

(** C3.  If the generation call of the builder the router selected fails,
    the chat turn raises that very exception to its caller, an [LLMError]
    carrying the client's cause, and appends no assistant message: the
    session history is the prior history followed by the user's message,
    and so are the messages of the state checkpointed for the thread. *)
Theorem failed_generation_appends_no_message (llm : ChatModel)
    (prompt : string) (w w1 w2 : World) (v : string) (builder : Node)
    (e : Exception) :
  prompt ≠ "" →
  SupervisorAgent llm (turn_state w prompt) w = (inr (route v), w1) →
  nodes (build_graph llm) !! v = Some builder →
  builder (apply_update (turn_state w prompt) (route v)) w1 = (inl e, w2) →
  let out := handle_chat_input (build_graph llm) prompt w in
  fst out = inl e ∧
  (∃ cause, e = LLMError cause) ∧
  ss_messages (session (snd out)) =
    ss_messages (session w) ++ [HumanMessage prompt] ∧
  messages <$> graph_state (snd out) =
    Some (ss_messages (session w) ++ [HumanMessage prompt]) ∧
  node_trace (snd out) = node_trace w ++ ["supervisor"; v] ∧
  llm_calls (snd out) = llm_calls w2.
Proof.
  intros Hprompt Hs Hnode Hbuild out.
  pose proof (chat_turn_cases llm prompt w Hprompt) as H. cbn zeta in H.
  fold out in H. rewrite Hs in H.
  destruct H as (v' & [= <-] & Hin & H).
  pose proof (node_is_role llm v builder Hin Hnode) as Hrole.
  rewrite decide_False in H by auto with roles.
  destruct H as (builder' & Hnode' & H).
  assert (builder' = builder) as -> by congruence.
  rewrite Hbuild in H. destruct H as (H1 & H2 & H3 & H4 & H5).
  apply (builder_world llm v builder) in Hbuild as [_ [[cause Hc]|[text Hc]]];
    [|done..].
  split_and!; try done.
  - injection Hc as ->. by exists cause.
  - by rewrite H5.
Qed.

Lemma failed_generation_appends_no_message_witness :
  let out := handle_chat_input
               (build_graph (failing_llm "Content Enhancer" "timeout"))
               "How do I improve my headline?"
               (fresh_world "s1" "Senior backend engineer" []) in
  fst out = inl (LLMError "timeout") ∧
  ss_messages (session (snd out)) =
    [HumanMessage "How do I improve my headline?"].
Proof.
  edestruct (failed_generation_appends_no_message
               (failing_llm "Content Enhancer" "timeout")
               "How do I improve my headline?"
               (fresh_world "s1" "Senior backend engineer" []))
    as (H1 & _ & H2 & _).
  - discriminate.
  - reflexivity.
  - reflexivity.
  - reflexivity.
  - split; [exact H1|exact H2].
Defined.

(** C2 (as the code has it).  After a turn in which the selected builder
    returned, the builder's update is the one-element list holding the
    generated assistant message; the session history is the prior history,
    then the user's message, then an assistant message with the generated
    text when that text is not empty and nothing more when it is; and the
    [messages] of the graph state, a key without a reducer, is the
    builder's one-element list. *)
Theorem successful_turn_history (llm : ChatModel)
    (prompt : string) (w w1 w2 : World) (v : string) (builder : Node)
    (u2 : Update) :
  prompt ≠ "" →
  SupervisorAgent llm (turn_state w prompt) w = (inr (route v), w1) →
  nodes (build_graph llm) !! v = Some builder →
  builder (apply_update (turn_state w prompt) (route v)) w1 = (inr u2, w2) →
  let out := handle_chat_input (build_graph llm) prompt w in
  ∃ text,
    u2 = reply (AIMessage text) ∧
    fst out = inr tt ∧
    ss_messages (session (snd out)) =
      (ss_messages (session w) ++ [HumanMessage prompt]) ++
      (if bool_decide (text ≠ "") then [AIMessage text] else []) ∧
    messages <$> graph_state (snd out) = Some [AIMessage text].
Proof.
  intros Hprompt Hs Hnode Hbuild out.
  pose proof (chat_turn_cases llm prompt w Hprompt) as H. cbn zeta in H.
  fold out in H. rewrite Hs in H.
  destruct H as (v' & [= <-] & Hin & H).
  pose proof (node_is_role llm v builder Hin Hnode) as Hrole.
  rewrite decide_False in H by auto with roles.
  destruct H as (builder' & Hnode' & H).
  assert (builder' = builder) as -> by congruence.
  rewrite Hbuild in H. destruct H as (text & -> & H1 & H2 & H3 & H4 & H5).
  exists text. split_and!; try done. by rewrite H5.
Qed.

Lemma successful_turn_history_witness :
  let out := handle_chat_input
               (build_graph (stub_llm "Content Enhancer" "Rewrite headline to: ..."))
               "How do I improve my headline?"
               (fresh_world "s1"
                  "Senior backend engineer, 8 years, Go and distributed systems"
                  []) in
  fst out = inr tt ∧
  ss_messages (session (snd out)) =
    [HumanMessage "How do I improve my headline?";
     AIMessage "Rewrite headline to: ..."].
Proof.
  edestruct (successful_turn_history
               (stub_llm "Content Enhancer" "Rewrite headline to: ...")
               "How do I improve my headline?"
               (fresh_world "s1"
                  "Senior backend engineer, 8 years, Go and distributed systems"
                  []))
    as (text & Htext & H1 & H2 & _).
  - discriminate.
  - reflexivity.
  - reflexivity.
  - reflexivity.
  - injection Htext as <-. split; [exact H1|exact H2].
Defined.

(** C2 as stated fails.  After a successful turn the messages of the graph
    state are the generated message alone, not the prior sequence with the
    message appended; and when the generated text is empty the session
    history gets no assistant message at all. *)
Lemma messages_append_only_counterexample :
  let w := fresh_world "s1"
             "Senior backend engineer, 8 years, Go and distributed systems"
             [] in
  let prior := [HumanMessage "How do I improve my headline?"] in
  let out := handle_chat_input
               (build_graph (stub_llm "Content Enhancer" "Rewrite headline to: ..."))
               "How do I improve my headline?" w in
  let out' := handle_chat_input (build_graph (stub_llm "Content Enhancer" ""))
                "How do I improve my headline?" w in
  (fst out = inr tt ∧
   messages <$> graph_state (snd out) =
     Some [AIMessage "Rewrite headline to: ..."] ∧
   messages <$> graph_state (snd out) ≠
     Some (prior ++ [AIMessage "Rewrite headline to: ..."])) ∧
  (fst out' = inr tt ∧
   ss_messages (session (snd out')) = prior ∧
   ss_messages (session (snd out')) ≠ prior ++ [AIMessage ""]).
Proof.
  vm_compute. split_and!; done.
Qed.

(** C9.  No node writes [profile_data]: an update returned by the
    supervisor holds the [next] key alone and an update returned by any of
    the four builders holds a [messages] entry alone, so applying it leaves
    [profile_data] as it was; after a run of the graph the state
    checkpointed for the thread still carries the profile data it was
    given, and a chat turn leaves the session's profile summary alone. *)
Theorem profile_data_is_read_only (llm : ChatModel) :
  (∀ st w u,
     fst (SupervisorAgent llm st w) = inr u →
     upd_messages u = None ∧ upd_profile_data u = None ∧
     is_Some (upd_next u)) ∧
  (∀ builder st w u,
     builder ∈ [create_profile_analyzer llm; create_job_fit_analyzer llm;
                create_content_enhancer llm; create_career_counselor llm] →
     fst (builder st w) = inr u →
     (∃ m, upd_messages u = Some [m]) ∧ upd_profile_data u = None ∧
     upd_next u = None) ∧
  (∀ st u,
     upd_profile_data u = None →
     profile_data (apply_update st u) = profile_data st) ∧
  (∀ A input tid (body : A → string * Update → Exception + A) acc w,
     profile_data <$>
       checkpoints (snd (stream (build_graph llm) input tid body acc w)) !! tid
     = Some (in_profile_data input)) ∧
  (∀ prompt w,
     profile_summary (session (snd (handle_chat_input (build_graph llm) prompt w)))
     = profile_summary (session w)).
Proof.
  split_and!.
  - intros st w u Hu.
    destruct (SupervisorAgent llm st w) as [x w1] eqn:Hs. simpl in Hu. subst x.
    apply SupervisorAgent_inr in Hs as (v & -> & _). simpl. eauto.
  - intros builder st w u Hin Hu.
    assert (∃ t, builder = agent_wrapper t llm) as [t ->].
    { rewrite !elem_of_cons, elem_of_nil in Hin.
      destruct Hin as [->|[->|[->|[->|[]]]]]; eauto. }
    apply agent_wrapper_inr in Hu as [text ->]. simpl. eauto.
  - intros st u Hu. unfold apply_update. simpl. by rewrite Hu.
  - intros A input tid body acc w.
    pose proof (stream_turn_run llm tid body input acc w) as Hrun.
    cbn zeta in Hrun.
    destruct (stream _ _ _ _ _ _) as [x w'].
    apply turn_run_frame in Hrun as [_ Hck].
    destruct Hck as (st' & Hst' & Hpd); [cbn; apply lookup_insert_eq|].
    cbn [snd]. rewrite Hst'. simpl. by rewrite Hpd.
  - intros prompt w.
    destruct (decide (prompt = "")) as [->|Hprompt]; [done|].
    destruct (handle_chat_input_run llm prompt w Hprompt)
      as (x & w' & Hrun & ->).
    apply turn_run_frame in Hrun as [Hsess _].
    destruct x as [e|final]; [simpl; by rewrite Hsess|].
    case_bool_decide; simpl; by rewrite Hsess.
Qed.

(** * Regular expressions *)

Lemma nullable_lang (r : regex) : nullable r = true ↔ lang r "".
Proof.
  split.
  - induction r; simpl; try done.
    + intros _. constructor.
    + intros [H1 H2]%andb_true_iff. by apply (lang_Seq _ _ "" "" (IHr1 H1) (IHr2 H2)).
    + intros [H|H]%orb_true_iff; [apply lang_Alt_l|apply lang_Alt_r]; auto.
    + intros _. constructor.
  - intros H. remember "" as s eqn:Hs. induction H; simpl; try done.
    + destruct s1; [|done]. simpl in Hs. subst. by rewrite IHlang1, IHlang2.
    + by rewrite IHlang.
    + rewrite IHlang by done. by rewrite orb_true_r.
Qed.

Lemma string_app_cons (c : ascii) (s t : string) :
  String c s +:+ t = String c (s +:+ t).
Proof. reflexivity. Qed.

Lemma string_app_nil_l (s : string) : "" +:+ s = s.
Proof. reflexivity. Qed.

Lemma string_app_assoc (s1 s2 s3 : string) :
  (s1 +:+ s2) +:+ s3 = s1 +:+ (s2 +:+ s3).
Proof.
  induction s1 as [|c s1 IH]; [done|].
  by rewrite !string_app_cons, IH.
Qed.

Lemma string_app_nil_r (s : string) : s +:+ "" = s.
Proof.
  induction s as [|c s IH]; [done|]. by rewrite string_app_cons, IH.
Qed.

Lemma lang_Never_iff (s : string) : lang Never s ↔ False.
Proof. split; [inversion 1|done]. Qed.

Lemma lang_Eps_iff (s : string) : lang Eps s ↔ s = "".
Proof. split; [by inversion 1|intros ->; constructor]. Qed.

Lemma lang_Chr_iff (c : ascii) (s : string) : lang (Chr c) s ↔ s = String c "".
Proof. split; [by inversion 1|intros ->; constructor]. Qed.

Lemma lang_Range_iff (lo hi : ascii) (s : string) :
  lang (Range lo hi) s ↔ ∃ c, s = String c "" ∧ in_range lo hi c = true.
Proof.
  split; [inversion 1; eauto|intros (c & -> & ?); by constructor].
Qed.

Lemma lang_Seq_iff (r1 r2 : regex) (s : string) :
  lang (Seq r1 r2) s ↔ ∃ s1 s2, s = s1 +:+ s2 ∧ lang r1 s1 ∧ lang r2 s2.
Proof.
  split; [inversion 1; eauto|intros (s1 & s2 & -> & ? & ?); by constructor].
Qed.

Lemma lang_Alt_iff (r1 r2 : regex) (s : string) :
  lang (Alt r1 r2) s ↔ lang r1 s ∨ lang r2 s.
Proof.
  split; [inversion 1; eauto|intros [?|?]; [by apply lang_Alt_l|by apply lang_Alt_r]].
Qed.

(** A non-empty word of [Star r] starts with a non-empty word of [r]. *)
Lemma lang_Star_String (r : regex) (c : ascii) (s : string) :
  lang (Star r) (String c s) →
  ∃ s1 s2, s = s1 +:+ s2 ∧ lang r (String c s1) ∧ lang (Star r) s2.
Proof.
  intros H. remember (Star r) as r' eqn:Hr. remember (String c s) as t eqn:Ht.
  revert c s Ht. induction H as [| | | | | | |r0 s1 s2 H1 _ H2 IH2]; try done.
  injection Hr as ->. intros c s Ht.
  destruct s1 as [|c1 s1].
  - by apply IH2.
  - rewrite string_app_cons in Ht. injection Ht as -> <-. eauto.
Qed.

(** The derivative by [c] has the words that follow a leading [c]. *)
Lemma derive_lang (c : ascii) (r : regex) (s : string) :
  lang (derive c r) s ↔ lang r (String c s).
Proof.
  revert s. induction r as [| |c'|lo hi|r1 IH1 r2 IH2|r1 IH1 r2 IH2|r IH];
    intros s; simpl.
  - by rewrite !lang_Never_iff.
  - by rewrite lang_Never_iff, lang_Eps_iff.
  - rewrite lang_Chr_iff. case_bool_decide as Hc.
    + rewrite lang_Eps_iff. split; [by intros ->; subst|by intros [= ->]].
    + rewrite lang_Never_iff. split; [done|]. by intros [= ? ?].
  - rewrite lang_Range_iff. destruct (in_range lo hi c) eqn:Hin.
    + rewrite lang_Eps_iff. split; [intros ->; eauto|by intros (? & [= -> ->] & _)].
    + rewrite lang_Never_iff. split; [done|].
      intros (? & [= <- _] & ?). congruence.
  - assert (lang (Seq r1 r2) (String c s) ↔
            lang (Seq (derive c r1) r2) s ∨
            (nullable r1 = true ∧ lang (derive c r2) s)) as Hseq.
    { rewrite !lang_Seq_iff. split.
      - intros (s1 & s2 & Heq & H1 & H2). destruct s1 as [|c1 s1].
        + right. rewrite string_app_nil_l in Heq. subst s2.
          split; [by apply nullable_lang|by apply IH2].
        + rewrite string_app_cons in Heq. injection Heq as <- ->.
          left. exists s1, s2. split; [done|]. split; [by apply IH1|done].
      - intros [(s1 & s2 & -> & H1 & H2)|[Hn H2]].
        + exists (String c s1), s2. split; [done|]. split; [by apply IH1|done].
        + exists "", (String c s). split; [done|].
          split; [by apply nullable_lang|by apply IH2]. }
    rewrite Hseq. destruct (nullable r1).
    + rewrite lang_Alt_iff. split; (intros [?|?]; [by left|right]); tauto.
    + split; [by left|]. by intros [?|[? _]].
  - rewrite !lang_Alt_iff, IH1, IH2. done.
  - rewrite lang_Seq_iff. split.
    + intros (s1 & s2 & -> & H1 & H2). apply IH in H1.
      by apply (lang_Star_cons _ (String c s1) s2).
    + intros (s1 & s2 & -> & H1 & H2)%lang_Star_String.
      exists s1, s2. split; [done|]. split; [by apply IH|done].
Qed.

(** The matcher decides the language of the pattern. *)
Lemma accepts_lang (r : regex) (s : string) : accepts r s = true ↔ lang r s.
Proof.
  revert r. induction s as [|c s IH]; intros r; simpl.
  - apply nullable_lang.
  - rewrite IH. apply derive_lang.
Qed.

Lemma lang_Str_iff (t s : string) : lang (Str t) s ↔ s = t.
Proof.
  revert s. induction t as [|c t IH]; intros s; simpl.
  - apply lang_Eps_iff.
  - rewrite lang_Seq_iff. split.
    + intros (s1 & s2 & -> & ->%lang_Chr_iff & ->%IH). done.
    + intros ->. exists (String c ""), t.
      split; [done|]. split; [constructor|by apply IH].
Qed.

Lemma lang_Opt_iff (r : regex) (s : string) :
  lang (Opt r) s ↔ s = "" ∨ lang r s.
Proof. unfold Opt. rewrite lang_Alt_iff, lang_Eps_iff. tauto. Qed.

(** The pieces of the pattern of the profile URL. *)
Lemma lang_SLUG_CHAR_iff (s : string) :
  lang SLUG_CHAR s ↔ ∃ c, s = String c "" ∧ is_slug_char c = true.
Proof.
  unfold SLUG_CHAR, is_slug_char.
  rewrite !lang_Alt_iff, !lang_Range_iff, lang_Chr_iff. split.
  - intros [(c & -> & Hc)|[(c & -> & Hc)|[(c & -> & Hc)| ->]]];
      eexists; (split; [done|]); rewrite ?Hc, ?orb_true_r; done.
  - intros (c & -> & Hc).
    apply orb_true_iff in Hc as [Hc|Hc]; [|apply bool_decide_eq_true in Hc as ->; eauto 6].
    apply orb_true_iff in Hc as [Hc|Hc]; [|eauto 8].
    apply orb_true_iff in Hc as [Hc|Hc]; eauto 8.
Qed.

Lemma lang_Star_SLUG_CHAR_iff (s : string) :
  lang (Star SLUG_CHAR) s ↔ string_forall is_slug_char s = true.
Proof.
  split.
  - induction s as [|c s IH]; [done|].
    intros (s1 & s2 & -> & H1 & H2)%lang_Star_String.
    apply lang_SLUG_CHAR_iff in H1 as (c' & [= <- ->] & Hc).
    simpl. rewrite Hc. by apply IH.
  - induction s as [|c s IH]; simpl; [constructor|].
    intros [Hc Hs]%andb_true_iff.
    apply (lang_Star_cons _ (String c "") s); [|by apply IH].
    apply lang_SLUG_CHAR_iff. eauto.
Qed.

Lemma lang_Plus_SLUG_CHAR_iff (s : string) :
  lang (Plus SLUG_CHAR) s ↔ s ≠ "" ∧ string_forall is_slug_char s = true.
Proof.
  unfold Plus. rewrite lang_Seq_iff. split.
  - intros (s1 & s2 & -> & (c & -> & Hc)%lang_SLUG_CHAR_iff
                          & Hs%lang_Star_SLUG_CHAR_iff).
    split; [done|]. simpl. by rewrite Hc.
  - intros [Hne Hs]. destruct s as [|c s]; [done|]. simpl in Hs.
    apply andb_true_iff in Hs as [Hc Hs].
    exists (String c ""), s. split; [done|].
    split; [apply lang_SLUG_CHAR_iff; eauto|by apply lang_Star_SLUG_CHAR_iff].
Qed.

(** * The profile URL *)



Lemma lang_LINKEDIN_URL_iff (u : string) :
  lang LINKEDIN_URL u ↔
  ∃ scheme www slug slash,
    u = scheme +:+ "://" +:+ www +:+ "linkedin.com/in/" +:+ slug +:+ slash ∧
    (scheme = "http" ∨ scheme = "https") ∧
    (www = "" ∨ www = "www.") ∧
    slug ≠ "" ∧ string_forall is_slug_char slug = true ∧
    (slash = "" ∨ slash = "/").
Proof.
  unfold LINKEDIN_URL. split.
  - intros Hu.
    apply lang_Seq_iff in Hu as (h & u1 & -> & ->%lang_Str_iff & Hu).
    apply lang_Seq_iff in Hu as (s' & u2 & -> & Hs%lang_Opt_iff & Hu).
    rewrite lang_Chr_iff in Hs.
    apply lang_Seq_iff in Hu as (sep & u3 & -> & ->%lang_Str_iff & Hu).
    apply lang_Seq_iff in Hu as (www & u4 & -> & Hw%lang_Opt_iff & Hu).
    rewrite lang_Str_iff in Hw.
    apply lang_Seq_iff in Hu as (host & u5 & -> & ->%lang_Str_iff & Hu).
    apply lang_Seq_iff in Hu
      as (slug & slash & -> & [Hne Hslug]%lang_Plus_SLUG_CHAR_iff
               & Hsl%lang_Opt_iff).
    rewrite lang_Chr_iff in Hsl.
    exists ("http" +:+ s'), www, slug, slash.
    split_and!; try done.
    destruct Hs as [->| ->]; [by left|by right].
  - intros (scheme & www & slug & slash & -> & Hscheme & Hw & Hne & Hslug & Hsl).
    assert (∃ s', scheme = "http" +:+ s' ∧ (s' = "" ∨ s' = "s"))
      as (s' & -> & Hs).
    { destruct Hscheme as [->| ->]; [exists ""|exists "s"]; eauto. }
    rewrite string_app_assoc.
    apply lang_Seq; [by apply lang_Str_iff|].
    apply lang_Seq; [apply lang_Opt_iff; by rewrite lang_Chr_iff|].
    apply lang_Seq; [by apply lang_Str_iff|].
    apply lang_Seq; [apply lang_Opt_iff; by rewrite lang_Str_iff|].
    apply lang_Seq; [by apply lang_Str_iff|].
    apply lang_Seq; [by apply lang_Plus_SLUG_CHAR_iff|].
    apply lang_Opt_iff. by rewrite lang_Chr_iff.
Qed.

(** [re.match] with [$]: a word of the pattern, or one followed by a line
    feed. *)
Lemma valid_linkedin_url_lang (url : string) :
  valid_linkedin_url url = true ↔
  ∃ u nl, url = u +:+ nl ∧ lang LINKEDIN_URL u ∧
          (nl = "" ∨ nl = String newline "").
Proof.
  unfold valid_linkedin_url, re_match_line.
  rewrite accepts_lang, lang_Seq_iff.
  split; intros (u & nl & -> & Hu & Hnl); exists u, nl;
    (split; [done|]); (split; [done|]);
    apply lang_Opt_iff in Hnl || apply lang_Opt_iff;
    by rewrite lang_Chr_iff in *.
Qed.

(** X1.  The check of [scrape_linkedin_profile] accepts exactly the strings
    made of the scheme [http] or [https], [://], an optional [www.], the
    host and path [linkedin.com/in/], a non-empty profile name of ASCII
    letters, digits and hyphens, an optional final slash and, because [$]
    also matches before a line feed that ends the string, an optional
    final line feed. *)
Theorem valid_linkedin_url_iff (url : string) :
  valid_linkedin_url url = true ↔
  ∃ scheme www slug slash nl,
    url = scheme +:+ "://" +:+ www +:+ "linkedin.com/in/" +:+ slug +:+
          slash +:+ nl ∧
    (scheme = "http" ∨ scheme = "https") ∧
    (www = "" ∨ www = "www.") ∧
    slug ≠ "" ∧ string_forall is_slug_char slug = true ∧
    (slash = "" ∨ slash = "/") ∧
    (nl = "" ∨ nl = String newline "").
Proof.
  rewrite valid_linkedin_url_lang. split.
  - intros (u & nl & -> & (scheme & www & slug & slash & -> & H)%lang_LINKEDIN_URL_iff
              & Hnl).
    exists scheme, www, slug, slash, nl. split; [|tauto].
    by rewrite !string_app_assoc.
  - intros (scheme & www & slug & slash & nl & -> & H1 & H2 & H3 & H4 & H5 & H6).
    exists (scheme +:+ "://" +:+ www +:+ "linkedin.com/in/" +:+ slug +:+ slash), nl.
    split; [by rewrite !string_app_assoc|]. split; [|done].
    apply lang_LINKEDIN_URL_iff. exists scheme, www, slug, slash. tauto.
Qed.




(** * Scraping a profile *)

Lemma scrape_linkedin_profile_unfold (token : option string)
    (client : AsyncClient) (url : string) (sent : list Request) :
  valid_linkedin_url url = true → token_missing token = false →
  scrape_linkedin_profile token client url sent =
  (match client sent (apify_request (default "" token) url) with
   | Received response =>
       if is_success response then
         match res_json response with
         | None => inl JSONDecodeError
         | Some (JList (profile :: _)) => inr profile
         | Some _ =>
             inl (ValueError "Unexpected response format from Apify API")
         end
       else
         inl (RuntimeError ("Apify API error: " +:+
                            pretty (status_code response) +:+ " " +:+
                            text response))
   | RequestError message => inl (RuntimeError ("Network error: " +:+ message))
   end, sent ++ [apify_request (default "" token) url]).
Proof.
  intros Hurl Htoken. unfold scrape_linkedin_profile.
  rewrite Hurl, Htoken. reflexivity.
Qed.

(** X3.  [scrape_linkedin_profile] sends nothing when the URL fails the
    check or the token is unset or empty.  Otherwise it sends one POST to
    the run-sync endpoint of the scraper actor, carrying the token as a
    bearer credential and the URL, as given, as the only element of
    [profileUrls]; it sends no second request, whatever the answer to the
    first. *)
Theorem scrape_sends_one_request_or_none (token : option string)
    (client : AsyncClient) (url : string) (sent : list Request) :
  snd (scrape_linkedin_profile token client url sent) =
  if valid_linkedin_url url && negb (token_missing token)
  then sent ++ [apify_request (default "" token) url]
  else sent.
Proof.
  destruct (valid_linkedin_url url) eqn:Hurl;
    [|unfold scrape_linkedin_profile; by rewrite Hurl].
  destruct (token_missing token) eqn:Htoken;
    [unfold scrape_linkedin_profile; by rewrite Hurl, Htoken|].
  by rewrite scrape_linkedin_profile_unfold.
Qed.

(** X4.  [scrape_linkedin_profile] returns a profile exactly when the URL
    passes the check, the token is set, the request is answered with a
    status from 200 to 299 and the body decodes to a non-empty JSON list;
    the profile is the first element of that list, and the other elements
    are dropped. *)
Theorem scrape_returns_first_item (token : option string)
    (client : AsyncClient) (url : string) (sent : list Request)
    (profile : JSON) :
  fst (scrape_linkedin_profile token client url sent) = inr profile ↔
  valid_linkedin_url url = true ∧ token_missing token = false ∧
  ∃ response rest,
    client sent (apify_request (default "" token) url) = Received response ∧
    (200 ≤ status_code response ≤ 299)%nat ∧
    res_json response = Some (JList (profile :: rest)).
Proof.
  destruct (valid_linkedin_url url) eqn:Hurl;
    [|unfold scrape_linkedin_profile; rewrite Hurl;
      split; [done|by intros [? _]]].
  destruct (token_missing token) eqn:Htoken;
    [unfold scrape_linkedin_profile; rewrite Hurl, Htoken;
     split; [done|by intros (_ & ? & _)]|].
  rewrite scrape_linkedin_profile_unfold by done. cbn [fst].
  split.
  - destruct (client sent _) as [message|response]; [done|].
    destruct (is_success response) eqn:Hok; [|done].
    destruct (res_json response) as [[| | | |[|p rest]|]|] eqn:Hjson; try done.
    intros [= ->]. split_and!; try done. exists response, rest.
    split_and!; try done;
      apply andb_true_iff in Hok as [?%Nat.leb_le ?%Nat.leb_le]; done.
  - intros (_ & _ & response & rest & -> & [Hlo Hhi] & Hjson).
    unfold is_success.
    rewrite (proj2 (Nat.leb_le _ _) Hlo), (proj2 (Nat.leb_le _ _) Hhi), Hjson.
    done.
Qed.

(** X5.  What [scrape_linkedin_profile] raises.  A [ValueError] is either
    the rejected URL or a successful answer whose body is JSON but not a
    non-empty list; this second one is raised inside the [try] and leaves
    as it is, since neither handler catches it.  A [RuntimeError] is the
    missing token, a transport failure (["Network error: "] and the text
    of the failure) or an answer whose status is outside 200 to 299
    (["Apify API error: "], the status and the body of the answer, which
    is not decoded).  A successful answer whose body is not JSON leaves as
    the decoder's error. *)
Theorem scrape_failure_cases (token : option string)
    (client : AsyncClient) (url : string) (sent : list Request)
    (e : UtilsError) :
  fst (scrape_linkedin_profile token client url sent) = inl e →
  let answer := client sent (apify_request (default "" token) url) in
  (valid_linkedin_url url = false ∧
   e = ValueError "Invalid LinkedIn profile URL format") ∨
  (valid_linkedin_url url = true ∧ token_missing token = true ∧
   e = RuntimeError "APIFY_API_TOKEN environment variable not set.") ∨
  (valid_linkedin_url url = true ∧ token_missing token = false ∧
   ((∃ message, answer = RequestError message ∧
       e = RuntimeError ("Network error: " +:+ message)) ∨
    (∃ response, answer = Received response ∧
       is_success response = false ∧
       e = RuntimeError ("Apify API error: " +:+
                         pretty (status_code response) +:+ " " +:+
                         text response)) ∨
    (∃ response, answer = Received response ∧
       is_success response = true ∧ res_json response = None ∧
       e = JSONDecodeError) ∨
    (∃ response data, answer = Received response ∧
       is_success response = true ∧ res_json response = Some data ∧
       (∀ profile rest, data ≠ JList (profile :: rest)) ∧
       e = ValueError "Unexpected response format from Apify API"))).
Proof.
  destruct (valid_linkedin_url url) eqn:Hurl;
    [|unfold scrape_linkedin_profile; rewrite Hurl; intros [= <-]; by left].
  destruct (token_missing token) eqn:Htoken;
    [unfold scrape_linkedin_profile; rewrite Hurl, Htoken; intros [= <-];
     right; by left|].
  rewrite scrape_linkedin_profile_unfold by done. cbn [fst].
  intros He. right. right. split; [done|]. split; [done|].
  destruct (client sent _) as [message|response].
  { injection He as <-. left. by exists message. }
  right. destruct (is_success response) eqn:Hok.
  2: { injection He as <-. left. by exists response. }
  right. destruct (res_json response) as [data|] eqn:Hjson.
  2: { injection He as <-. left. by exists response. }
  right. exists response, data. split_and!; try done.
  - intros profile rest ->. done.
  - destruct data as [| | | |[|p rest]|]; congruence.
Qed.

Lemma scrape_failure_cases_witness :
  let response := {| status_code := 404; text := "Actor not found";
                     res_json := None |} in
  let e := RuntimeError "Apify API error: 404 Actor not found" in
  fst (scrape_linkedin_profile (Some "apify_api_123") (stub_client response)
         "https://www.linkedin.com/in/ada-lovelace" []) = inl e ∧
  ∃ response',
    is_success response' = false ∧
    e = RuntimeError ("Apify API error: " +:+
                      pretty (status_code response') +:+ " " +:+
                      text response').
Proof.
  intros response e. split; [reflexivity|].
  destruct (scrape_failure_cases (Some "apify_api_123") (stub_client response)
              "https://www.linkedin.com/in/ada-lovelace" [] e)
    as [[H _]|[(_ & H & _)|(_ & _ & [(m & H & _)|[(r & _ & Hs & He)
         |[(r & _ & _ & _ & H)|(r & d & _ & _ & _ & _ & H)]]])]].
  - reflexivity.
  - discriminate H.
  - discriminate H.
  - discriminate H.
  - exists r. split; [exact Hs|exact He].
  - discriminate H.
  - discriminate H.
Defined.

(** * The profile summary *)

Lemma format_summary_prompt :
  ∃ instructions closing, instructions ≠ "" ∧ closing ≠ "" ∧
  ∀ profile_data,
    format_prompt summary_prompt {[ "profile_data" := profile_data ]} =
    inr (instructions +:+ profile_data +:+ closing).
Proof.
  eexists _, _. split_and!; cycle 2.
  { intros pd. cbn [format_prompt summary_prompt].
    rewrite lookup_singleton_eq. reflexivity. }
  all: done.
Qed.

(** X6.  [create_profile_summary] makes one generation call.  Its prompt is
    the fixed instruction text with the profile data inserted at one
    place; the text of the reply is returned as it is; an error of the
    backend leaves as it is; the session and the checkpoints are not
    touched. *)
Theorem create_profile_summary_run :
  ∃ instructions closing, instructions ≠ "" ∧ closing ≠ "" ∧
  ∀ (llm : ChatModel) (profile_data : string) (w : World),
    let prompt := instructions +:+ profile_data +:+ closing in
    create_profile_summary llm profile_data w =
    (match chat_generate llm (llm_calls w) prompt with
     | Ok text => inr text
     | Fail cause => inl (LLMError cause)
     end, log_call (Generate prompt) w).
Proof.
  destruct format_summary_prompt as (instructions & closing & H1 & H2 & Hfmt).
  exists instructions, closing. split; [done|]. split; [done|].
  intros llm pd w prompt.
  unfold create_profile_summary, chain_invoke, bind, lift.
  rewrite Hfmt. unfold llm_invoke. fold prompt.
  by destruct (chat_generate llm (llm_calls w) prompt).
Qed.

(** * The prompts of the role builders *)

Lemma role_prompt_shape (r : string) :
  r ∈ ROLES →
  ∃ t instructions middle closing,
    (∀ llm, nodes (build_graph llm) !! r = Some (agent_wrapper t llm)) ∧
    instructions ≠ "" ∧ middle ≠ "" ∧
    ∀ pd c,
      format_prompt t {[ "profile_data" := pd; "current_request" := c ]} =
      inr (instructions +:+ pd +:+ middle +:+ c +:+ closing).
Proof.
  unfold ROLES. rewrite !elem_of_cons, elem_of_nil.
  intros [->|[->|[->|[->|[]]]]];
    eexists _, _, _, _; split_and!; try (intros llm; reflexivity); cycle 2;
    try (intros pd c; reflexivity); done.
Qed.

(** X7.  Each role names a node of the graph, and that node makes one
    generation call whose prompt is the role's instruction text with the
    state's [profile_data] inserted at one place and the latest user
    message at a later one.  Nothing else of the state reaches the
    backend: no earlier message of the conversation, no earlier reply.
    The node returns the reply as the one assistant message of its update,
    and an error of the backend leaves as it is. *)
Theorem builder_prompt_is_template (llm : ChatModel) (r : string) :
  r ∈ ROLES →
  ∃ (builder : Node) instructions middle closing,
    nodes (build_graph llm) !! r = Some builder ∧
    instructions ≠ "" ∧ middle ≠ "" ∧
    ∀ st w,
      let prompt := instructions +:+ profile_data st +:+ middle +:+
                    get_current_user_message (messages st) +:+ closing in
      builder st w =
      (match chat_generate llm (llm_calls w) prompt with
       | Ok text => inr (reply (AIMessage text))
       | Fail cause => inl (LLMError cause)
       end, log_call (Generate prompt) w).
Proof.
  intros Hr.
  destruct (role_prompt_shape r Hr)
    as (t & instructions & middle & closing & Hnode & H1 & H2 & Hfmt).
  exists (agent_wrapper t llm), instructions, middle, closing.
  split_and!; try done.
  intros st w prompt. by apply agent_wrapper_run.
Qed.

Lemma builder_prompt_is_template_witness :
  ∃ (builder : Node) instructions middle closing,
    nodes (build_graph (stub_llm "Job Fit Analyzer" "ok")) !! "Job Fit Analyzer"
      = Some builder ∧
    instructions ≠ "" ∧ middle ≠ "" ∧
    ∀ st w,
      let prompt := instructions +:+ profile_data st +:+ middle +:+
                    get_current_user_message (messages st) +:+ closing in
      builder st w =
      (match chat_generate (stub_llm "Job Fit Analyzer" "ok") (llm_calls w) prompt with
       | Ok text => inr (reply (AIMessage text))
       | Fail cause => inl (LLMError cause)
       end, log_call (Generate prompt) w).
Proof.
  apply (builder_prompt_is_template (stub_llm "Job Fit Analyzer" "ok")
           "Job Fit Analyzer").
  unfold ROLES. apply list_elem_of_further, list_elem_of_here.
Defined.

(** * What a chat turn depends on *)

Lemma SupervisorAgent_calls (llm : ChatModel) (st1 st2 : AgentState)
    (w1 w2 : World) :
  get_current_user_message (messages st1) =
  get_current_user_message (messages st2) →
  llm_calls w1 = llm_calls w2 →
  fst (SupervisorAgent llm st1 w1) = fst (SupervisorAgent llm st2 w2) ∧
  llm_calls (snd (SupervisorAgent llm st1 w1)) =
  llm_calls (snd (SupervisorAgent llm st2 w2)).
Proof.
  intros Heq Hcalls.
  supervisor_request st1 p Hp.
  rewrite (SupervisorAgent_run llm st1 w1 p Hp).
  rewrite Heq in Hp. rewrite (SupervisorAgent_run llm st2 w2 p Hp).
  cbn. by rewrite Hcalls.
Qed.

Lemma agent_wrapper_calls (t : ChatPromptTemplate) (llm : ChatModel)
    (st1 st2 : AgentState) (w1 w2 : World) :
  profile_data st1 = profile_data st2 →
  get_current_user_message (messages st1) =
  get_current_user_message (messages st2) →
  llm_calls w1 = llm_calls w2 →
  fst (agent_wrapper t llm st1 w1) = fst (agent_wrapper t llm st2 w2) ∧
  llm_calls (snd (agent_wrapper t llm st1 w1)) =
  llm_calls (snd (agent_wrapper t llm st2 w2)).
Proof.
  intros Hpd Heq Hcalls.
  unfold agent_wrapper, chain_invoke, bind, lift. rewrite Hpd, Heq.
  destruct (format_prompt t _) as [e|p]; [by cbn|].
  unfold llm_invoke. rewrite Hcalls.
  destruct (chat_generate llm (llm_calls w2) p); cbn; by rewrite Hcalls.
Qed.

Lemma turn_state_request (w : World) (prompt : string) (u : Update) :
  upd_messages u = None →
  get_current_user_message (messages (apply_update (turn_state w prompt) u))
  = prompt.
Proof.
  intros Hu. unfold apply_update, turn_state. rewrite Hu.
  cbn [messages default]. by rewrite get_current_user_message_snoc.
Qed.

(** X8.  A chat turn depends on the prompt, on the profile summary and on
    the calls the backend has served, and on nothing else.  Run in two
    worlds that agree on these, whatever their chat histories, their
    session ids and their checkpoints, the turn has the same outcome,
    leaves the same calls behind and appends the same messages: the
    conversation so far has no influence on the answer. *)
Theorem chat_turn_ignores_history (llm : ChatModel) (prompt : string)
    (w1 w2 : World) :
  llm_calls w1 = llm_calls w2 →
  profile_summary (session w1) = profile_summary (session w2) →
  let out1 := handle_chat_input (build_graph llm) prompt w1 in
  let out2 := handle_chat_input (build_graph llm) prompt w2 in
  fst out1 = fst out2 ∧
  llm_calls (snd out1) = llm_calls (snd out2) ∧
  ∃ added,
    ss_messages (session (snd out1)) = ss_messages (session w1) ++ added ∧
    ss_messages (session (snd out2)) = ss_messages (session w2) ++ added.
Proof.
  intros Hcalls Hsum out1 out2.
  destruct (decide (prompt = "")) as [->|Hprompt].
  { split; [done|]. split; [done|]. exists []. by rewrite !app_nil_r. }
  pose proof (chat_turn_cases llm prompt w1 Hprompt) as H1.
  pose proof (chat_turn_cases llm prompt w2 Hprompt) as H2.
  cbn zeta in H1, H2. fold out1 in H1. fold out2 in H2.
  destruct (SupervisorAgent_calls llm (turn_state w1 prompt)
              (turn_state w2 prompt) w1 w2) as [Hx Hc]; [|done|].
  { unfold turn_state. cbn [messages].
    by rewrite !get_current_user_message_snoc. }
  destruct (SupervisorAgent llm (turn_state w1 prompt) w1) as [x1 w1'].
  destruct (SupervisorAgent llm (turn_state w2 prompt) w2) as [x2 w2'].
  cbn [fst snd] in Hx, Hc. subst x2.
  destruct x1 as [e|u].
  { destruct H1 as (E1 & M1 & _ & C1 & _), H2 as (E2 & M2 & _ & C2 & _).
    rewrite E1, E2, M1, M2, C1, C2. eauto. }
  destruct H1 as (v & -> & Hv & H1), H2 as (v2 & Heq & _ & H2).
  injection Heq as <-.
  destruct (decide (v = END)) as [Hend|Hend].
  { destruct H1 as (E1 & M1 & _ & C1 & _), H2 as (E2 & M2 & _ & C2 & _).
    rewrite E1, E2, M1, M2, C1, C2. eauto. }
  destruct H1 as (b1 & Hn1 & H1), H2 as (b2 & Hn2 & H2).
  rewrite Hn1 in Hn2. injection Hn2 as <-.
  apply NEXT_LITERAL_cases in Hv as [Hrole|?]; [|done].
  destruct (role_nodes llm v Hrole) as (t & Hnode & _).
  rewrite Hnode in Hn1. injection Hn1 as <-.
  destruct (agent_wrapper_calls t llm
              (apply_update (turn_state w1 prompt) (route v))
              (apply_update (turn_state w2 prompt) (route v)) w1' w2')
    as [Hy Hc2]; [done|by rewrite !turn_state_request|done|].
  destruct (agent_wrapper t llm (apply_update (turn_state w1 prompt) _) w1')
    as [y1 w1''].
  destruct (agent_wrapper t llm (apply_update (turn_state w2 prompt) _) w2')
    as [y2 w2''].
  cbn [fst snd] in Hy, Hc2. subst y2.
  destruct y1 as [e|u2].
  { destruct H1 as (E1 & M1 & _ & C1 & _), H2 as (E2 & M2 & _ & C2 & _).
    rewrite E1, E2, M1, M2, C1, C2. eauto. }
  destruct H1 as (text & -> & E1 & M1 & _ & C1 & _).
  destruct H2 as (text2 & Heq & E2 & M2 & _ & C2 & _).
  injection Heq as <-.
  rewrite E1, E2, M1, M2, C1, C2, <- !app_assoc. eauto.
Qed.

Lemma chat_turn_ignores_history_witness :
  let llm := stub_llm "Content Enhancer" "Lead with the outcome." in
  let w1 := world_with [] "s1" "Backend engineer" [] in
  let w2 := world_with [] "s2" "Backend engineer"
              [HumanMessage "My name is Ada."; AIMessage "Noted."] in
  let out1 := handle_chat_input (build_graph llm) "Rewrite my headline" w1 in
  let out2 := handle_chat_input (build_graph llm) "Rewrite my headline" w2 in
  fst out1 = fst out2 ∧
  llm_calls (snd out1) = llm_calls (snd out2) ∧
  ∃ added,
    ss_messages (session (snd out1)) = ss_messages (session w1) ++ added ∧
    ss_messages (session (snd out2)) = ss_messages (session w2) ++ added.
Proof.
  intros llm w1 w2.
  apply (chat_turn_ignores_history llm "Rewrite my headline" w1 w2);
    reflexivity.
Defined.

(** * The session across the runs of the script *)

Lemma turn_run_other_threads {A} (llm : ChatModel) (tid : string)
    (st : AgentState) (body : A → string * Update → Exception + A) (acc : A)
    (w w' : World) (x : Exception + A) (tid' : string) :
  turn_run llm tid st body acc w (x, w') → tid' ≠ tid →
  checkpoints w' !! tid' = checkpoints w !! tid'.
Proof.
  intros Hrun Hne.
  inversion Hrun as [e w1 Hs|v w1 e Hs Hv Hb|w1 acc1 Hs Hb
                    |r w1 acc1 builder e w2 Hs Hr Hb Hn Hbuild
                    |r w1 acc1 builder text w2 Hs Hr Hb Hn Hbuild];
    subst; apply SupervisorAgent_world in Hs as [p ->];
    try (apply (builder_world llm r builder) in Hbuild as [[p2 ->] _];
         [|done..]);
    cbn; by rewrite ?lookup_insert_ne.
Qed.

(** What a chat turn leaves of the world it starts from. *)
Lemma handle_chat_input_frame (llm : ChatModel) (prompt : string) (w : World) :
  let w' := snd (handle_chat_input (build_graph llm) prompt w) in
  session_id (session w') = session_id (session w) ∧
  profile_summary (session w') = profile_summary (session w) ∧
  ∀ tid', tid' ≠ session_id (session w) →
          checkpoints w' !! tid' = checkpoints w !! tid'.
Proof.
  destruct (decide (prompt = "")) as [->|Hprompt]; [done|].
  destruct (handle_chat_input_run llm prompt w Hprompt)
    as (x & w1 & Hrun & Heq).
  cbn zeta. rewrite Heq.
  pose proof (turn_run_frame _ _ _ _ _ _ _ _ Hrun) as [Hsess _].
  pose proof (λ tid', turn_run_other_threads _ _ _ _ _ _ _ _ tid' Hrun)
    as Hother.
  assert (session_id (session w1) = session_id (session w) ∧
          profile_summary (session w1) = profile_summary (session w) ∧
          ∀ tid', tid' ≠ session_id (session w) →
                  checkpoints w1 !! tid' = checkpoints w !! tid') as Hw1.
  { rewrite Hsess. split_and!; try done.
    intros tid' Hne. rewrite (Hother tid' Hne). cbn.
    by rewrite lookup_insert_ne. }
  destruct x as [e|final]; [done|]. by case_bool_decide.
Qed.

Lemma answers_follow_requests_mono (ms : list BaseMessage) :
  answers_follow_requests false ms = true →
  answers_follow_requests true ms = true.
Proof. by destruct ms as [|[]]. Qed.

Lemma answers_follow_requests_app (b : bool) (ms added : list BaseMessage) :
  answers_follow_requests b ms = true →
  answers_follow_requests false added = true →
  answers_follow_requests b (ms ++ added) = true.
Proof.
  revert b. induction ms as [|[c|c|c] ms IH]; intros b; cbn.
  - intros _. destruct b; [apply answers_follow_requests_mono|done].
  - apply IH.
  - intros [H1 H2]%andb_true_iff Hadd. by rewrite H1, IH.
  - done.
Qed.

(** A chat turn appends the prompt, then the reply if there is one. *)
Lemma handle_chat_input_history (llm : ChatModel) (prompt : string) (w : World) :
  let out := handle_chat_input (build_graph llm) prompt w in
  ∃ added,
    ss_messages (session (snd out)) = ss_messages (session w) ++ added ∧
    answers_follow_requests false added = true ∧
    (prompt ≠ "" → ∃ rest, added = HumanMessage prompt :: rest).
Proof.
  destruct (decide (prompt = "")) as [->|Hprompt].
  { exists []. by rewrite app_nil_r. }
  pose proof (chat_turn_cases llm prompt w Hprompt) as H. cbn zeta in H.
  cbn zeta.
  destruct (SupervisorAgent llm (turn_state w prompt) w) as [[e|u] w1].
  { destruct H as (_ & -> & _). exists [HumanMessage prompt]. eauto. }
  destruct H as (v & -> & Hv & H).
  destruct (decide (v = END)).
  { destruct H as (_ & -> & _). exists [HumanMessage prompt]. eauto. }
  destruct H as (builder & _ & H).
  destruct (builder _ w1) as [[e|u2] w2].
  { destruct H as (_ & -> & _). exists [HumanMessage prompt]. eauto. }
  destruct H as (text & _ & _ & -> & _). rewrite <- app_assoc.
  case_bool_decide as Htext.
  - exists [HumanMessage prompt; AIMessage text]. split_and!; eauto.
    cbn. by rewrite bool_decide_true.
  - exists [HumanMessage prompt]. eauto.
Qed.

Lemma handle_chat_input_exception (llm : ChatModel) (prompt : string)
    (w : World) (e : Exception) :
  fst (handle_chat_input (build_graph llm) prompt w) = inl e →
  (∃ cause, e = LLMError cause) ∨ (∃ i, e = ValidationError "next_agent" i).
Proof.
  destruct (decide (prompt = "")) as [->|Hprompt]; [done|].
  pose proof (chat_turn_cases llm prompt w Hprompt) as H. cbn zeta in H.
  destruct (SupervisorAgent llm (turn_state w prompt) w) as [[e1|u] w1] eqn:Hs.
  { destruct H as (-> & _). intros [= <-]. by eapply SupervisorAgent_inl. }
  destruct H as (v & -> & Hv & H).
  destruct (decide (v = END)).
  { by destruct H as (-> & _). }
  destruct H as (builder & Hnode & H).
  destruct (builder _ w1) as [[e2|u2] w2] eqn:Hb.
  - destruct H as (-> & _). intros [= <-].
    apply (builder_world llm v builder) in Hb as [_ [[cause ?]|[text ?]]];
      [simplify_eq; eauto|done|by eapply node_is_role|done].
  - by destruct H as (text & _ & -> & _).
Qed.

Lemma initial_analysis_cases (llm : ChatModel) (w : World) :
  initial_analysis (build_graph llm) w =
  if bool_decide (ss_messages (session w) = [])
  then handle_chat_input (build_graph llm) (content initial_prompt) w
  else (inr tt, w).
Proof.
  case_bool_decide as Hempty; [by apply initial_analysis_is_chat_turn|].
  unfold initial_analysis, bind at 1, get_world.
  by rewrite bool_decide_false.
Qed.

Lemma chat_interface_run (g : StateGraph) (prompt : string) (w : World) :
  chat_interface g prompt w =
  match initial_analysis g w with
  | (inr _, w1) => handle_chat_input g prompt w1
  | (inl e, w1) => (inl e, w1)
  end.
Proof. reflexivity. Qed.

(** One run of the script: what it appends and what it leaves. *)
Lemma chat_interface_step (llm : ChatModel) (prompt : string) (w : World) :
  let w' := snd (chat_interface (build_graph llm) prompt w) in
  (∃ added,
     ss_messages (session w') = ss_messages (session w) ++ added ∧
     answers_follow_requests false added = true) ∧
  session_id (session w') = session_id (session w) ∧
  profile_summary (session w') = profile_summary (session w) ∧
  ∀ tid', tid' ≠ session_id (session w) →
          checkpoints w' !! tid' = checkpoints w !! tid'.
Proof.
  cbn zeta. rewrite chat_interface_run.
  assert (let w1 := snd (initial_analysis (build_graph llm) w) in
          (∃ added,
             ss_messages (session w1) = ss_messages (session w) ++ added ∧
             answers_follow_requests false added = true) ∧
          session_id (session w1) = session_id (session w) ∧
          profile_summary (session w1) = profile_summary (session w) ∧
          ∀ tid', tid' ≠ session_id (session w) →
                  checkpoints w1 !! tid' = checkpoints w !! tid') as H1.
  { rewrite initial_analysis_cases. case_bool_decide.
    - split; [|apply handle_chat_input_frame].
      destruct (handle_chat_input_history llm (content initial_prompt) w)
        as (added & ? & ? & _). eauto.
    - cbn. split; [|done]. exists []. by rewrite app_nil_r. }
  cbn zeta in H1.
  destruct (initial_analysis (build_graph llm) w) as [[e|[]] w1]; [done|].
  cbn [snd] in H1. destruct H1 as ((added1 & Hm1 & Ha1) & Hid & Hsum & Hck).
  destruct (handle_chat_input_history llm prompt w1) as (added2 & Hm2 & Ha2 & _).
  destruct (handle_chat_input_frame llm prompt w1) as (Hid2 & Hsum2 & Hck2).
  split_and!.
  - exists (added1 ++ added2). rewrite Hm2, Hm1, <- app_assoc. split; [done|].
    by apply answers_follow_requests_app.
  - by rewrite Hid2.
  - by rewrite Hsum2.
  - intros tid' Hne. rewrite Hck2 by (by rewrite Hid). by apply Hck.
Qed.

(** X9.  Over any number of runs of the script, whatever is submitted and
    whether the runs fail or not, the session keeps its id and its profile
    summary, and the state checkpointed for any other thread is left as it
    was: a conversation writes to its own thread only. *)
Theorem script_runs_keep_session_and_other_threads (llm : ChatModel)
    (prompts : list string) (w : World) :
  let w' := script_runs (build_graph llm) prompts w in
  session_id (session w') = session_id (session w) ∧
  profile_summary (session w') = profile_summary (session w) ∧
  ∀ tid', tid' ≠ session_id (session w) →
          checkpoints w' !! tid' = checkpoints w !! tid'.
Proof.
  revert w. induction prompts as [|prompt prompts IH]; intros w; [done|].
  cbn [script_runs]. cbn zeta.
  destruct (chat_interface_step llm prompt w) as (_ & Hid & Hsum & Hck).
  destruct (IH (snd (chat_interface (build_graph llm) prompt w)))
    as (Hid' & Hsum' & Hck').
  split_and!.
  - by rewrite Hid'.
  - by rewrite Hsum'.
  - intros tid' Hne. rewrite Hck' by (by rewrite Hid). by apply Hck.
Qed.

(** X10.  Over any number of runs of the script the chat history only
    grows at its end: what was there stays where it was.  What is added is
    made of user messages, each followed by at most one assistant message,
    and every assistant message has a text; a history of that form keeps
    that form. *)
Theorem script_runs_history (llm : ChatModel) (prompts : list string)
    (w : World) :
  let w' := script_runs (build_graph llm) prompts w in
  ∃ added,
    ss_messages (session w') = ss_messages (session w) ++ added ∧
    answers_follow_requests false added = true ∧
    (answers_follow_requests false (ss_messages (session w)) = true →
     answers_follow_requests false (ss_messages (session w')) = true).
Proof.
  cbn zeta.
  assert (∃ added,
            ss_messages (session (script_runs (build_graph llm) prompts w)) =
              ss_messages (session w) ++ added ∧
            answers_follow_requests false added = true)
    as (added & Hm & Ha).
  { revert w. induction prompts as [|prompt prompts IH]; intros w.
    - exists []. by rewrite app_nil_r.
    - cbn [script_runs].
      destruct (chat_interface_step llm prompt w) as ((added1 & Hm1 & Ha1) & _).
      destruct (IH (snd (chat_interface (build_graph llm) prompt w)))
        as (added2 & Hm2 & Ha2).
      exists (added1 ++ added2). rewrite Hm2, Hm1, <- app_assoc.
      split; [done|]. by apply answers_follow_requests_app. }
  exists added. split_and!; try done.
  intros Hw. rewrite Hm. by apply answers_follow_requests_app.
Qed.

(** X11.  A run of the script ends with an exception only when a call to
    the backend fails or when the router's classification is rejected by
    its schema.  The look-ups of the loop over the chunks
    ([state["messages"][-1]]), the look-up of the routing decision in the
    edge map and the recursion limit never raise. *)
Theorem chat_interface_exceptions (llm : ChatModel) (prompt : string)
    (w : World) (e : Exception) :
  fst (chat_interface (build_graph llm) prompt w) = inl e →
  (∃ cause, e = LLMError cause) ∨ (∃ i, e = ValidationError "next_agent" i).
Proof.
  rewrite chat_interface_run.
  pose proof (initial_analysis_cases llm w) as Hinit.
  destruct (initial_analysis (build_graph llm) w) as [[e1|[]] w1].
  - intros [= <-]. case_bool_decide; [|done].
    apply (handle_chat_input_exception llm (content initial_prompt) w).
    by rewrite <- Hinit.
  - apply handle_chat_input_exception.
Qed.

Lemma chat_interface_exceptions_witness :
  fst (chat_interface (build_graph (down_llm "rate limit")) "Hello"
         (fresh_world "s1" "Backend engineer" [])) =
    inl (LLMError "rate limit") ∧
  ((∃ cause, LLMError "rate limit" = LLMError cause) ∨
   (∃ i, LLMError "rate limit" = ValidationError "next_agent" i)).
Proof.
  split; [reflexivity|].
  apply (chat_interface_exceptions (down_llm "rate limit") "Hello"
           (fresh_world "s1" "Backend engineer" [])).
  reflexivity.
Defined.

(** X12.  The turn the app starts by itself on an empty chat is the chat
    turn for the fixed request to analyze the profile: the same outcome
    and the same world.  The extra test of its loop, which skips a content
    that already occurs in the response so far, never makes a difference,
    since a run yields at most one reply.  On a chat that is not empty it
    does nothing. *)
Theorem initial_analysis_is_first_chat_turn (llm : ChatModel) (w : World) :
  initial_analysis (build_graph llm) w =
  if bool_decide (ss_messages (session w) = [])
  then handle_chat_input (build_graph llm)
         "Analyze my profile by using the Profile Analyzer tool." w
  else (inr tt, w).
Proof. apply initial_analysis_cases. Qed.

Lemma chat_interface_first_message (llm : ChatModel) (prompt : string)
    (w : World) :
  ∃ first rest,
    ss_messages (session (snd (chat_interface (build_graph llm) prompt w)))
      = first :: rest ∧
    (ss_messages (session w) = [] → first = initial_prompt).
Proof.
  rewrite chat_interface_run, initial_analysis_cases.
  case_bool_decide as Hempty.
  - destruct (handle_chat_input_history llm (content initial_prompt) w)
      as (added1 & Hm1 & _ & Hh); cbn zeta in Hm1.
    destruct Hh as [rest1 ->]; [done|]. rewrite Hempty in Hm1.
    destruct (handle_chat_input _ _ w) as [[e|[]] w1]; cbn [snd] in *;
      [by exists initial_prompt, rest1|].
    destruct (handle_chat_input_history llm prompt w1)
      as (added2 & Hm2 & _). cbn zeta in Hm2.
    rewrite Hm2, Hm1. by exists initial_prompt, (rest1 ++ added2).
  - destruct (handle_chat_input_history llm prompt w) as (added & Hm & _).
    cbn zeta in Hm. rewrite Hm.
    destruct (ss_messages (session w)) as [|m ms]; [done|].
    by exists m, (ms ++ added).
Qed.

(** X13.  The initial analysis is attempted once.  After a run of the
    script the history is never empty, also when the run failed, so the
    next run does not start the analysis again; a history that was empty
    now begins with the fixed request. *)
Theorem initial_analysis_runs_once (llm : ChatModel) (prompt : string)
    (w : World) :
  let w' := snd (chat_interface (build_graph llm) prompt w) in
  ss_messages (session w') ≠ [] ∧
  initial_analysis (build_graph llm) w' = (inr tt, w') ∧
  (ss_messages (session w) = [] →
   ∃ rest, ss_messages (session w') = initial_prompt :: rest).
Proof.
  cbn zeta.
  destruct (chat_interface_first_message llm prompt w)
    as (first & rest & Hm & Hfirst).
  split_and!.
  - by rewrite Hm.
  - rewrite initial_analysis_cases. rewrite bool_decide_false; [done|].
    by rewrite Hm.
  - intros Hempty. exists rest. by rewrite Hm, Hfirst.
Qed.

(** * The calls of a chat turn *)

Lemma supervisor_prompt_shape :
  ∃ routing, routing ≠ "" ∧
  ∀ c, format_prompt supervisor_prompt {[ "current_request" := c ]} =
       inr (routing +:+ c).
Proof.
  eexists. split; cycle 1.
  - intros c. cbn [format_prompt supervisor_prompt].
    rewrite lookup_singleton_eq, string_app_nil_r. reflexivity.
  - done.
Qed.

(** X16.  What a chat turn sends to the backend.  The first call asks the
    router about the prompt: the routing instructions followed by the
    prompt as entered.  When the router names a role, one more call
    follows, whose prompt is that role's instruction text around the
    profile summary and the prompt; otherwise no call follows.  No call
    of the turn carries a message of the history. *)
Theorem chat_turn_requests :
  ∃ routing, routing ≠ "" ∧
  (∀ r, r ∈ ROLES →
     ∃ instructions middle closing,
     ∀ (llm : ChatModel) (prompt : string) (w : World),
       prompt ≠ "" →
       fst (SupervisorAgent llm (turn_state w prompt) w) = inr (route r) →
       llm_calls (snd (handle_chat_input (build_graph llm) prompt w)) =
       llm_calls w ++
       [GenerateStructured (routing +:+ prompt);
        Generate (instructions +:+ profile_summary (session w) +:+ middle +:+
                  prompt +:+ closing)]) ∧
  (∀ (llm : ChatModel) (prompt : string) (w : World),
     prompt ≠ "" →
     (∀ r, r ∈ ROLES →
           fst (SupervisorAgent llm (turn_state w prompt) w) ≠ inr (route r)) →
     llm_calls (snd (handle_chat_input (build_graph llm) prompt w)) =
     llm_calls w ++ [GenerateStructured (routing +:+ prompt)]).
Proof.
  destruct supervisor_prompt_shape as (routing & Hrouting & Hsup).
  exists routing. split; [done|].
  assert (∀ llm prompt w,
            SupervisorAgent llm (turn_state w prompt) w =
            (fst (SupervisorAgent llm (turn_state w prompt) w),
             log_call (GenerateStructured (routing +:+ prompt)) w)) as Hrun.
  { intros llm prompt w.
    rewrite (SupervisorAgent_run llm (turn_state w prompt) w (routing +:+ prompt));
      [done|].
    unfold turn_state. cbn [messages].
    by rewrite get_current_user_message_snoc. }
  split.
  - intros r Hr.
    destruct (role_prompt_shape r Hr)
      as (t & instructions & middle & closing & Hnode & _ & _ & Hfmt).
    exists instructions, middle, closing. intros llm prompt w Hprompt Hdec.
    pose proof (chat_turn_cases llm prompt w Hprompt) as H. cbn zeta in H.
    rewrite Hrun, Hdec in H.
    destruct H as (v & [= <-] & _ & H).
    rewrite decide_False in H by (by apply ROLES_not_END).
    destruct H as (builder & Hb & H).
    rewrite Hnode in Hb. injection Hb as <-.
    rewrite (agent_wrapper_run t llm _ _ _
               (Hfmt _ _)) in H.
    rewrite turn_state_request in H by done.
    destruct (chat_generate llm _ _) as [text|cause].
    + destruct H as (text' & _ & _ & _ & _ & -> & _).
      cbn. by rewrite <- app_assoc.
    + destruct H as (_ & _ & _ & -> & _). cbn. by rewrite <- app_assoc.
  - intros llm prompt w Hprompt Hdec.
    pose proof (chat_turn_cases llm prompt w Hprompt) as H. cbn zeta in H.
    rewrite Hrun in H. rewrite Hrun in Hdec. cbn [fst] in Hdec.
    destruct (fst (SupervisorAgent llm (turn_state w prompt) w)) as [e|u].
    { by destruct H as (_ & _ & _ & -> & _). }
    destruct H as (v & -> & Hv & H).
    apply NEXT_LITERAL_cases in Hv as [Hrole| ->];
      [by destruct (Hdec v Hrole)|].
    rewrite decide_True in H by done.
    by destruct H as (_ & _ & _ & -> & _).
Qed.

(** * The cost of the runs *)

Lemma handle_chat_input_calls (llm : ChatModel) (prompt : string) (w : World) :
  ∃ added,
    llm_calls (snd (handle_chat_input (build_graph llm) prompt w)) =
      llm_calls w ++ added ∧
    (length added ≤ if bool_decide (prompt ≠ "") then 2 else 0)%nat.
Proof.
  case_bool_decide as Hprompt.
  2: { subst. exists []. split; [by rewrite app_nil_r|done]. }
  destruct (handle_chat_input_run llm prompt w Hprompt)
    as (x & w1 & Hrun & ->).
  apply turn_run_trace in Hrun as [p1 H].
  assert (∃ added, llm_calls w1 = llm_calls w ++ added ∧
                   (length added ≤ 2)%nat) as (added & Hw1 & Hlen).
  { destruct H as [[_ ->]|(r & p2 & _ & _ & ->)]; eexists; split;
      try reflexivity; cbn; lia. }
  exists added. split; [|done].
  destruct x as [e|final]; [done|]. by case_bool_decide.
Qed.

Lemma chat_interface_calls (llm : ChatModel) (prompt : string) (w : World) :
  ∃ added,
    llm_calls (snd (chat_interface (build_graph llm) prompt w)) =
      llm_calls w ++ added ∧
    (length added ≤
       (if bool_decide (ss_messages (session w) = []) then 2 else 0) +
       (if bool_decide (prompt ≠ "") then 2 else 0))%nat.
Proof.
  rewrite chat_interface_run, initial_analysis_cases.
  case_bool_decide as Hempty.
  - destruct (handle_chat_input_calls llm (content initial_prompt) w)
      as (added1 & Hc1 & Hlen1).
    rewrite bool_decide_true in Hlen1 by done.
    destruct (handle_chat_input _ _ w) as [[e|[]] w1]; cbn [snd] in *.
    { exists added1. split; [done|]. lia. }
    destruct (handle_chat_input_calls llm prompt w1) as (added2 & Hc2 & Hlen2).
    exists (added1 ++ added2). rewrite Hc2, Hc1, <- app_assoc.
    split; [done|]. rewrite length_app. lia.
  - destruct (handle_chat_input_calls llm prompt w) as (added & Hc & Hlen).
    exists added. split; [done|]. lia.
Qed.

(** X17.  The backend calls of any number of runs of the script are
    appended to those made before, and there are at most two for each
    prompt submitted, and two more for the initial analysis when the chat
    was empty.  A run in which nothing is submitted calls the backend only
    if it is the one that starts the initial analysis. *)
Theorem script_runs_backend_calls (llm : ChatModel) (prompts : list string)
    (w : World) :
  ∃ added,
    llm_calls (script_runs (build_graph llm) prompts w) = llm_calls w ++ added ∧
    (length added ≤
       2 * length (filter (λ prompt, prompt ≠ "") prompts) +
       (if bool_decide (ss_messages (session w) = []) then 2 else 0))%nat.
Proof.
  revert w. induction prompts as [|prompt prompts IH]; intros w.
  { exists []. rewrite app_nil_r. split; [done|]. cbn. lia. }
  cbn [script_runs].
  destruct (chat_interface_calls llm prompt w) as (added1 & Hc1 & Hlen1).
  destruct (chat_interface_first_message llm prompt w)
    as (first & rest & Hm & _).
  destruct (IH (snd (chat_interface (build_graph llm) prompt w)))
    as (added2 & Hc2 & Hlen2).
  rewrite Hm, bool_decide_false in Hlen2 by done.
  exists (added1 ++ added2). rewrite Hc2, Hc1, <- app_assoc.
  split; [done|]. rewrite length_app, filter_cons.
  destruct (decide (prompt ≠ "")) as [Hp|Hp].
  - rewrite (bool_decide_true (prompt ≠ "")) in Hlen1 by done.
    cbn [length]. lia.
  - rewrite (bool_decide_false (prompt ≠ "")) in Hlen1 by done. lia.
Qed.

(** * Loading a profile *)

Lemma create_profile_summary_unfold (llm : ChatModel) (profile_data : string)
    (w : World) (p : string) :
  format_prompt summary_prompt {[ "profile_data" := profile_data ]} = inr p →
  create_profile_summary llm profile_data w =
  (match chat_generate llm (llm_calls w) p with
   | Ok text => inr text
   | Fail cause => inl (LLMError cause)
   end, log_call (Generate p) w).
Proof.
  intros Hp. unfold create_profile_summary, chain_invoke, bind, lift.
  rewrite Hp. unfold llm_invoke.
  by destruct (chat_generate llm (llm_calls w) p).
Qed.

(** X14.  Loading a profile is all or nothing for the session.  Either the
    scraper returned a profile and the backend a summary of it: then the
    profile and the summary are stored together and the chat is emptied.
    Or one of the two failed, or no URL was entered: then the profile, the
    summary and the chat are what they were before.  In both cases the
    session keeps its id and the checkpoints of the graph are not
    touched. *)
Theorem scrape_and_analyze_profile_all_or_nothing (token : option string)
    (client : AsyncClient) (str : JSON → string) (llm : ChatModel)
    (profile_url : string) (app : App) :
  let app' := scrape_and_analyze_profile token client str llm profile_url app in
  checkpoints (world app') = checkpoints (world app) ∧
  ((∃ profile summary,
      fst (scrape_linkedin_profile token client profile_url (requests app))
        = inr profile ∧
      fst (create_profile_summary llm (str profile) (world app)) = inr summary ∧
      ss_profile_data app' = Some profile ∧
      session (world app') =
        {| session_id := session_id (session (world app));
           ss_messages := []; profile_summary := summary |}) ∨
   ((∀ profile,
       fst (scrape_linkedin_profile token client profile_url (requests app))
         = inr profile →
       ∃ e, fst (create_profile_summary llm (str profile) (world app)) = inl e) ∧
    ss_profile_data app' = ss_profile_data app ∧
    session (world app') = session (world app))).
Proof.
  cbn zeta. unfold scrape_and_analyze_profile.
  case_bool_decide as Hurl.
  2: { split; [done|]. right. split; [|done].
       intros profile. by subst. }
  destruct (scrape_linkedin_profile token client profile_url (requests app))
    as [[e|profile] sent].
  { split; [done|]. right. by split. }
  destruct (format_summary_prompt) as (i & c & _ & _ & Hfmt).
  rewrite (create_profile_summary_unfold llm _ _ _ (Hfmt (str profile))).
  destruct (chat_generate llm _ _) as [summary|cause] eqn:Hg; cbn.
  - split; [done|]. left. exists profile, summary.
    by rewrite (create_profile_summary_unfold llm _ _ _ (Hfmt (str profile))), Hg.
  - split; [done|]. right. split; [|done]. intros ? [= <-].
    rewrite (create_profile_summary_unfold llm _ _ _ (Hfmt (str profile))), Hg.
    eauto.
Qed.

(** X15.  What loading a profile sends out.  The requests it sends are
    those of [scrape_linkedin_profile], at most one.  The backend is
    called only when the scraper has returned a profile, and then once,
    with the summarization prompt around the text of that profile; for a
    rejected URL, a missing token or a failed request the backend gets
    nothing. *)
Theorem scrape_and_analyze_profile_traffic :
  ∃ instructions closing, instructions ≠ "" ∧ closing ≠ "" ∧
  ∀ (token : option string) (client : AsyncClient) (str : JSON → string)
    (llm : ChatModel) (profile_url : string) (app : App),
    let app' := scrape_and_analyze_profile token client str llm profile_url app in
    let scraped :=
      scrape_linkedin_profile token client profile_url (requests app) in
    requests app' = snd scraped ∧
    llm_calls (world app') =
      match fst scraped with
      | inr profile =>
          llm_calls (world app) ++
          [Generate (instructions +:+ str profile +:+ closing)]
      | inl _ => llm_calls (world app)
      end.
Proof.
  destruct format_summary_prompt as (i & c & Hi & Hc & Hfmt).
  exists i, c. split; [done|]. split; [done|].
  intros token client str llm profile_url app. cbn zeta.
  unfold scrape_and_analyze_profile.
  case_bool_decide as Hurl; [|by subst].
  destruct (scrape_linkedin_profile token client profile_url (requests app))
    as [[e|profile] sent]; [done|].
  rewrite (create_profile_summary_unfold llm _ _ _ (Hfmt (str profile))).
  by destruct (chat_generate llm _ _).
Qed.
